(** * CoinTracker wallet manager

    A shallow embedding of the synchronisation engine ([cointracker.go]) and of
    the persistence gateway (package [data]) of the CoinTracker project, and
    the properties of its specification checked against it.

    Layout: the values and effects the Go code works with (errors, panics, the
    store behind [database/sql], the explorer API behind [net/http]); then the
    packages [types], [data] and [cointracker], one module each, function by
    function; then the theorems. *)

From Stdlib Require Import ZArith.
From Stdlib Require Import Floats.PrimFloat Floats.FloatOps Floats.SpecFloat.
From stdpp Require Import gmap strings list fin_maps pretty sorting.

#[local] Set Warnings "-register-all".

(** ** Errors, panics and results *)

(** An argument of a [fmt.Errorf] call. *)
Inductive fmtArg : Type :=
  | ArgS (s : string)
  | ArgD (n : Z).

(** A Go [error] value: one handed back by a library ([database/sql],
    [net/http], [io], [encoding/json]), or one built by [fmt.Errorf], which
    keeps the error it wraps with [%w]. *)
Inductive error : Type :=
  | External (origin : string)
  | Errorf (format : string) (args : list fmtArg)
  | Wrapf (format : string) (args : list fmtArg) (wrapped : error).

(** A run-time panic. Nothing in the repository recovers from one: it ends
    the goroutine and with it the process. *)
Inductive panic : Type :=
  | NilPointerDereference
  | InterfaceConversion (field : string).

(** What a call comes to: a value, a returned error, a panic, or (for the one
    unbounded loop, pagination) a run cut short by its fuel. *)
Inductive result (A : Type) : Type :=
  | Ok (a : A)
  | Err (e : error)
  | Panic (p : panic)
  | Unfinished.
Arguments Ok {A} a.
Arguments Err {A} e.
Arguments Panic {A} p.
Arguments Unfinished {A}.

(** ** The store behind database/sql *)

(** A row of table [transactions]; its key [tx_index] is the key of the map
    that holds it. *)
Record TxRow : Type := mkTxRow {
  row_hash : string;
  row_address : string;
  row_data : string
}.

(** The two tables that [Initialize] creates. [wallet] has [address] as its
    primary key and a [balance] column; [transactions] has [tx_index] as its
    primary key, declared on that column alone. The column is TEXT, and the
    text of an integer determines the integer, so rows are keyed by the
    integer. *)
Record Tables : Type := mkTables {
  wallet : gmap string Z;
  transactions : gmap Z TxRow
}.

(** What the process does that is not a change of the store. *)
Inductive event : Type :=
  | LogLine (text : string)
  | Sleep (seconds : Z)
  | HttpGet (address : string) (limit offset : Z)
  | Spawn (address : string).

(** The world a call runs in: the committed tables, the staged tables of the
    open transaction (if one is open), the driver failures still to come (one
    flag for each call into [database/sql], in order; none left means no
    failure), and the events so far, latest last. *)
Record World : Type := mkWorld {
  store : Tables;
  pending : option Tables;
  faults : list bool;
  events : list event
}.

(** A [*sql.Tx]: nil, or the open transaction. *)
Inductive Tx : Type :=
  | nilTx
  | openTx.

(** A Go function on the world. A pair of results [(T, error)] is a
    [result T]: with a non-nil error the callers read nothing else of the
    pair. *)
Definition M (A : Type) : Type := World → result A * World.

#[global] Instance M_ret : MRet M := λ A a w, (Ok a, w).

#[global] Instance M_bind : MBind M := λ A B f c w,
  match c w with
  | (Ok a, w') => f a w'
  | (Err e, w') => (Err e, w')
  | (Panic p, w') => (Panic p, w')
  | (Unfinished, w') => (Unfinished, w')
  end.

(** A step written out on the world. *)
Definition step {A : Type} (f : World → result A * World) : M A := f.

Definition fail {A : Type} (e : error) : M A := λ w, (Err e, w).

Definition throw {A : Type} (p : panic) : M A := λ w, (Panic p, w).

(** [if err != nil]: hands a returned error to the caller as a value; a panic
    still unwinds. *)
Definition try {A : Type} (c : M A) : M (A + error) := λ w,
  match c w with
  | (Ok a, w') => (Ok (inl a), w')
  | (Err e, w') => (Ok (inr e), w')
  | (Panic p, w') => (Panic p, w')
  | (Unfinished, w') => (Unfinished, w')
  end.

(** [return fmt.Errorf(..., err)] on the error path of a call. *)
Definition wrapping {A : Type} (f : error → error) (c : M A) : M A := λ w,
  match c w with
  | (Err e, w') => (Err (f e), w')
  | other => other
  end.

Definition emit (e : event) : M unit := λ w,
  (Ok (), mkWorld (store w) (pending w) (faults w) (events w ++ [e])).

Definition log (text : string) : M unit := emit (LogLine text).

Definition sleep (seconds : Z) : M unit := emit (Sleep seconds).

(** ** SQL *)

(** The statements of the gateway's query list, with their arguments bound. *)
Inductive query : Type :=
  | insertAddressQuery (address : string)
  | removeAddressQuery (address : string)
  | removeTxQuery (address : string)
  | updateBalaceQuery (balance : Z) (address : string)
  | updateTxQuery (tx_index : Z) (hash address data : string).

Definition belongsTo (address : string) (entry : Z * TxRow) : Prop :=
  row_address entry.2 = address.

#[global] Instance belongsTo_dec address entry : Decision (belongsTo address entry).
Proof. unfold belongsTo. apply _. Defined.

Definition countRows {K V : Type} `{Countable K} (m : gmap K V) : Z :=
  Z.of_nat (size m).

(** One statement on the tables: the rows it affected and the tables after
    it, or nothing when a constraint refuses it. *)
Definition run (q : query) (t : Tables) : option (Z * Tables) :=
  match q with
  | insertAddressQuery address =>
      (* INSERT INTO wallet (address) VALUES (?); balance defaults to 0 *)
      match wallet t !! address with
      | Some _ => None
      | None => Some (1%Z, mkTables (<[address := 0%Z]> (wallet t)) (transactions t))
      end
  | removeAddressQuery address =>
      (* DELETE FROM wallet WHERE address = ? *)
      match wallet t !! address with
      | Some _ => Some (1%Z, mkTables (delete address (wallet t)) (transactions t))
      | None => Some (0%Z, t)
      end
  | removeTxQuery address =>
      (* DELETE FROM transactions WHERE address = ? *)
      Some (countRows (filter (belongsTo address) (transactions t)),
            mkTables (wallet t) (filter (λ entry, ¬ belongsTo address entry) (transactions t)))
  | updateBalaceQuery balance address =>
      (* UPDATE wallet SET balance = ? WHERE address = ? *)
      match wallet t !! address with
      | Some _ => Some (1%Z, mkTables (<[address := balance]> (wallet t)) (transactions t))
      | None => Some (0%Z, t)
      end
  | updateTxQuery tx_index hash address data =>
      (* INSERT OR IGNORE INTO transactions (tx_index, hash, address, data) *)
      match transactions t !! tx_index with
      | Some _ => Some (0%Z, t)
      | None => Some (1%Z, mkTables (wallet t)
                             (<[tx_index := mkTxRow hash address data]> (transactions t)))
      end
  end.

(** The text that a TEXT column keeps of an integer bound to it. *)
Definition textOf (tx_index : Z) : string := pretty tx_index.

(** [ORDER BY tx_index DESC] on the TEXT column: a row comes before another
    when the text of its index is not below the other's, texts compared
    character by character as the engine does by default. *)
Definition comesBefore (entry other : Z * TxRow) : Prop :=
  String.leb (textOf other.1) (textOf entry.1) = true.

#[global] Instance comesBefore_dec entry other : Decision (comesBefore entry other).
Proof. unfold comesBefore. apply _. Defined.

(** The order of the index of [address TEXT PRIMARY KEY]: the addresses
    compared byte by byte. *)
Definition listedBefore (address other : string) : Prop :=
  String.leb address other = true.

#[global] Instance listedBefore_dec address other : Decision (listedBefore address other).
Proof. unfold listedBefore. apply _. Defined.

Module sql.

(** Every call into the driver may fail; the next flag says whether this one
    does. *)
Definition driver : M unit := λ w,
  match faults w with
  | [] => (Ok (), w)
  | false :: rest => (Ok (), mkWorld (store w) (pending w) rest (events w))
  | true :: rest =>
      (Err (External "database/sql"), mkWorld (store w) (pending w) rest (events w))
  end.

(** [db.Begin()]. *)
Definition Begin : M Tx :=
  driver ;;
  step (λ w, (Ok openTx, mkWorld (store w) (Some (store w)) (faults w) (events w))).

(** [db.Exec(query, args...)]: the statement commits on its own. *)
Definition Exec (q : query) : M Z :=
  driver ;;
  step (λ w,
    match run q (store w) with
    | Some (rows, t) => (Ok rows, mkWorld t (pending w) (faults w) (events w))
    | None => (Err (External "constraint failed"), w)
    end).

(** [tx.Exec(query, args...)]: the statement changes the staged tables only.
    A failed statement leaves them as they were. *)
Definition TxExec (tx : Tx) (q : query) : M Z :=
  match tx with
  | nilTx => throw NilPointerDereference
  | openTx =>
      driver ;;
      step (λ w,
        match pending w with
        | None => (Err (External "sql: transaction has already been committed or rolled back"), w)
        | Some staged =>
            match run q staged with
            | Some (rows, t) => (Ok rows, mkWorld (store w) (Some t) (faults w) (events w))
            | None => (Err (External "constraint failed"), w)
            end
        end)
  end.

(** [tx.Commit()]: the staged tables become the committed ones. *)
Definition Commit (tx : Tx) : M unit :=
  match tx with
  | nilTx => throw NilPointerDereference
  | openTx =>
      driver ;;
      step (λ w,
        match pending w with
        | None => (Err (External "sql: transaction has already been committed or rolled back"), w)
        | Some staged => (Ok (), mkWorld staged None (faults w) (events w))
        end)
  end.

(** [tx.Rollback()]: the staged tables are dropped; after a commit there is
    nothing to drop. Its error is never read. *)
Definition Rollback (tx : Tx) : M unit :=
  match tx with
  | nilTx => throw NilPointerDereference
  | openTx => step (λ w, (Ok (), mkWorld (store w) None (faults w) (events w)))
  end.

(** [db.QueryRow(checkAddressQuery, address).Scan(&exists)]. *)
Definition QueryExists (address : string) : M bool :=
  driver ;;
  step (λ w, (Ok (bool_decide (is_Some (wallet (store w) !! address))), w)).

(** [db.Query(getAllAddressesQuery)] read to its end. The statement has no
    ORDER BY and reads only the column of the primary key: the engine reads
    the rows off the index of that key, in the order of the bytes of the
    addresses. *)
Definition QueryAddresses : M (list string) :=
  driver ;;
  step (λ w, (Ok (merge_sort listedBefore (map_to_list (wallet (store w))).*1), w)).

(** [db.QueryRow(getBalanceQuery, address)] and [row.Scan(&balance)]: the
    scan fails when the query gave no row. *)
Definition QueryBalance (address : string) : M Z :=
  driver ;;
  step (λ w,
    match wallet (store w) !! address with
    | Some balance => (Ok balance, w)
    | None => (Err (External "sql: no rows in result set"), w)
    end).

(** [db.Query(getTransactionsQuery, address)] read to its end: the [data] of
    the rows of the address, in the order of [ORDER BY tx_index DESC]. *)
Definition QueryTransactions (address : string) : M (list string) :=
  driver ;;
  step (λ w,
    (Ok ((λ entry, row_data entry.2) <$>
           merge_sort comesBefore
             (map_to_list (filter (belongsTo address) (transactions (store w))))),
     w)).

End sql.

(** ** Package types *)

Module types.

(** A decoded JSON value, as [encoding/json] stores one in an [any]. *)
Inductive any : Type :=
  | JNull
  | JBool (b : bool)
  | JNumber (f : float)
  | JString (s : string)
  | JArray (items : list any)
  | JObject (members : list (string * any)).

(** A [json.RawMessage]: the bytes of one JSON value, kept as they came, with
    the value they denote ([encoding/json] accepted them when it decoded the
    enclosing document). *)
Record RawMessage : Type := mkRawMessage {
  bytes : string;
  value : any
}.

(** Transaction data we want to store. *)
Record Transaction : Type := mkTransaction {
  Index : Z;
  Hash : string;
  Data : string
}.

Record AddressData : Type := mkAddressData {
  Address : string;
  Balance : Z;
  NumTxs : Z;
  Txs : list Transaction
}.

(** The address data received from the BlockChain API. The fields [Address]
    and [Txs] of the Go struct carry the prefix [Raw] here, where a record's
    fields share one name space. *)
Record RawAddressResponse : Type := mkRawAddressResponse {
  Hash160 : string;
  RawAddress : string;
  NTx : Z;
  NUnredeemed : Z;
  TotalReceived : Z;
  TotalSent : Z;
  FinalBalance : Z;
  RawTxs : list RawMessage
}.

End types.

(** ** What the code uses of the Go language and its libraries *)

(** Go's [int] and [int64] on a 64-bit platform: arithmetic wraps. *)
Definition wrap64 (z : Z) : Z := ((z + 2 ^ 63) `mod` 2 ^ 64 - 2 ^ 63)%Z.

(** The conversion [int64(f)] of a [float64]: the fraction is dropped; a
    value outside the range of [int64] has no result the language fixes, and
    comes out as the least [int64], as on amd64. *)
Definition int64_of_float64 (f : float) : Z :=
  let least := (- 2 ^ 63)%Z in
  match Prim2SF f with
  | S754_zero _ => 0%Z
  | S754_finite negative m e =>
      let magnitude :=
        if (0 <=? e)%Z then (Z.pos m * 2 ^ e)%Z else (Z.pos m `div` 2 ^ (- e))%Z in
      let v := if negative then (- magnitude)%Z else magnitude in
      if bool_decide (least ≤ v < 2 ^ 63)%Z then v else least
  | S754_infinity _ | S754_nan => least
  end.

Module json.
Import types.

(** [json.Unmarshal(rawTx, &txMap)] for [txMap] of type [map[string]any]: an
    object gives its members, [null] leaves the map nil (which reads as
    empty), anything else is an error. *)
Definition Unmarshal (rawTx : RawMessage) : error + list (string * any) :=
  match value rawTx with
  | JObject members => inr members
  | JNull => inr []
  | _ => inl (External "json: cannot unmarshal into Go value of type map[string]interface {}")
  end.

(** [txMap[key]]: the value of the member, the last one when the object
    repeats the key, and nil when it has none (a JSON [null] decodes to nil
    too). *)
Definition index (txMap : list (string * any)) (key : string) : any :=
  foldl (λ found member, if decide (member.1 = key) then member.2 else found) JNull txMap.

(** [v.(float64)], the one-result form: it panics on any other value. *)
Definition assertFloat64 (field : string) (v : any) : M float :=
  match v with
  | JNumber f => mret f
  | _ => throw (InterfaceConversion field)
  end.

(** [v.(string)], the one-result form. *)
Definition assertString (field : string) (v : any) : M string :=
  match v with
  | JString s => mret s
  | _ => throw (InterfaceConversion field)
  end.

End json.

(** ** Package data: the persistence gateway *)

Module data.
Import types.

(** [defer tx.Rollback()]: runs when the function returns, however it
    returns. *)
Definition deferring {A : Type} (cleanup : M unit) (body : M A) : M A := λ w,
  let (r, w') := body w in (r, (cleanup w').2).

(** The sqlite3 driver's [RowsAffected] reports the count it stored and no
    error, so a [sql.Result] is its count. *)
Definition validateEffectedRows (numRows : Z) (operation : string) : M unit :=
  if decide (numRows ≠ 1%Z)
  then fail (Errorf "invalid number of effected rows in %s - Expected: 1, Actual: %d"
               [ArgS operation; ArgD numRows])
  else mret ().

Definition StartTransaction : M Tx :=
  wrapping (Wrapf "failed to begin transaction: %w" []) sql.Begin.

Definition CommitTransaction (tx : Tx) : M unit := sql.Commit tx.

Definition CheckAddress (address : string) : M bool :=
  wrapping (Wrapf "error while checking address existance: %w" [])
    (sql.QueryExists address).

Definition AddAddress (address : string) : M unit :=
  result ← wrapping (Wrapf "failure to insert new address: %w" [])
              (sql.Exec (insertAddressQuery address));
  validateEffectedRows result "insertion".

Definition RemoveAddress (address : string) : M unit :=
  tx ← wrapping (Wrapf "failure to initalize transaction for removal: %w" []) sql.Begin;
  deferring (sql.Rollback tx) (
    (* Removal from wallet table *)
    result ← wrapping (Wrapf "failure to remove address: %w" [])
                (sql.TxExec tx (removeAddressQuery address));
    validateEffectedRows result "address removal" ;;
    (* Removal from transaction table *)
    wrapping (Wrapf "failure to remove transactions: %w" [])
      (sql.TxExec tx (removeTxQuery address)) ;;
    wrapping (Wrapf "error committing the removal transaction: %w" [])
      (sql.Commit tx)).

Definition UpdateBalance (tx : Tx) (address : string) (balance : Z) : M unit :=
  result ← wrapping (Wrapf "failed to update address balance: %w" [])
              (sql.TxExec tx (updateBalaceQuery balance address));
  validateEffectedRows result "balance update".

(** The loop of [UpdateTransactions] over [data.Txs]. *)
Fixpoint updateEach (tx : Tx) (address : string) (txs : list Transaction) : M unit :=
  match txs with
  | [] => mret ()
  | t :: rest =>
      wrapping (Wrapf "failed to update transactions for index %d: %w" [ArgD (Index t)])
        (sql.TxExec tx (updateTxQuery (Index t) (Hash t) address (Data t))) ;;
      updateEach tx address rest
  end.

Definition UpdateTransactions (tx : Tx) (data : AddressData) : M unit :=
  updateEach tx (Address data) (Txs data).

Definition GetAllAddresses : M (list string) :=
  wrapping (Wrapf "failed to retrieve addresses: %w" []) sql.QueryAddresses.

Definition GetBalance (address : string) : M Z :=
  wrapping (Wrapf "failed to get address balance: %w" []) (sql.QueryBalance address).

Definition GetTransactions (address : string) : M (list string) :=
  wrapping (Wrapf "failed to retrieve transactions: %w" []) (sql.QueryTransactions address).

End data.

(** ** The explorer API behind net/http *)

Module http.
Import types.

(** The body of a response: unreadable ([io.ReadAll] fails), not the JSON of
    a [RawAddressResponse] ([json.Unmarshal] fails), or decoded. *)
Inductive Body : Type :=
  | Unreadable
  | Undecodable
  | Decoded (response : RawAddressResponse).

(** What [http.Get] comes to. *)
Inductive Reply : Type :=
  | GetError
  | Response (StatusCode : Z) (body : Body).

Definition StatusOK : Z := 200.

(** The remote side: the reply to the request for one page of one address.
    The URL is built from the address, the limit and the offset and from
    nothing else, so these three stand for it. *)
Definition Api : Type := string → Z → Z → Reply.

End http.

(** ** Package cointracker: the wallet manager *)

Module cointracker.
Import types.

Section Wallet.

Variable api : http.Api.

(** The inner loop of [fetchAddressData]: every raw record of a page is
    decoded into a map and appended to [allTxs] as a [Transaction]. The
    fields of the struct literal are evaluated in the order written. *)
Fixpoint appendTransactions (rawTxs : list RawMessage) (allTxs : list Transaction)
    : M (list Transaction) :=
  match rawTxs with
  | [] => mret allTxs
  | rawTx :: rest =>
      match json.Unmarshal rawTx with
      | inl err =>
          log "Error parsing JSON transactions:" ;;
          fail (Wrapf "error while parsing transactions: %w" [] err)
      | inr txMap =>
          tx_index ← json.assertFloat64 "tx_index" (json.index txMap "tx_index");
          hash ← json.assertString "hash" (json.index txMap "hash");
          appendTransactions rest
            (allTxs ++ [mkTransaction (int64_of_float64 tx_index) hash (bytes rawTx)])
      end
  end.

Definition limit : Z := 50.

(** The [for] loop of [fetchAddressData], one page for each unit of fuel. *)
Fixpoint fetchPages (fuel : nat) (address : string) (offset : Z)
    (data : option AddressData) (allTxs : list Transaction) : M AddressData :=
  match fuel with
  | O => step (λ w, (Unfinished, w))
  | S fuel =>
      emit (HttpGet address limit offset) ;;
      match api address limit offset with
      | http.GetError =>
          log "Error while making request to API:" ;;
          fail (Wrapf "failed to fetch address data: %w" [] (External "net/http"))
      | http.Response StatusCode body =>
          if decide (StatusCode ≠ http.StatusOK) then
            log "Bad response code from API call:" ;;
            fail (Errorf "API request failed with status: %d" [ArgD StatusCode])
          else
            match body with
            | http.Unreadable =>
                log "Error while reading response body:" ;;
                fail (Wrapf "failed to read response body: %w" [] (External "io"))
            | http.Undecodable =>
                log "Error parsing JSON body" ;;
                fail (Wrapf "failed to parse API resonse body into raw response: %w" []
                        (External "encoding/json"))
            | http.Decoded response =>
                (* Only set once on first pass *)
                let data :=
                  match data with
                  | None => mkAddressData (RawAddress response) (FinalBalance response)
                                          (NTx response) []
                  | Some d => d
                  end in
                (* Process transactions in batches and using partial parsing *)
                allTxs ← appendTransactions (RawTxs response) allTxs;
                (* Check if more pages exist *)
                let offset := wrap64 (offset + limit) in
                if bool_decide (Z.of_nat (length (RawTxs response)) < limit)%Z
                   || bool_decide (NTx response ≤ offset)%Z
                then mret (mkAddressData (Address data) (Balance data) (NumTxs data) allTxs)
                else
                  sleep 15 ;;
                  fetchPages fuel address offset (Some data) allTxs
            end
      end
  end.

(** Retrieve address data from API. *)
Definition fetchAddressData (fuel : nat) (address : string) : M AddressData :=
  fetchPages fuel address 0 None [].

Definition AddAddress (address : string) : M bool :=
  if bool_decide (String.length address = 0 ∨ 42 < String.length address)%nat
  then fail (Errorf "cannot add address of invalid length" [])
  else
    exists_ ← data.CheckAddress address;
    if exists_ : bool then mret exists_
    else
      added ← try (data.AddAddress address);
      match added with
      | inr _ => fail (Errorf "failure to add new address" [])
      | inl _ =>
          (* Launch a data fetch for new address in the background *)
          emit (Spawn address) ;;
          mret false
      end.

(** [return exists, w.data.RemoveAddress(address)]: with the removal failed
    the pair is [(true, err)], of which the runner reads the error. *)
Definition RemoveAddress (address : string) : M bool :=
  exists_ ← data.CheckAddress address;
  if exists_ : bool then data.RemoveAddress address ;; mret exists_
  else mret exists_.

(** The first loop of [SyncWallets]: [results] is made with one nil entry
    for each address, and every fetched [AddressData] is appended to it. *)
Fixpoint fetchEach (fuel : nat) (addresses : list string)
    (results : list (option AddressData)) : M (list (option AddressData)) :=
  match addresses with
  | [] => mret results
  | address :: rest =>
      fetched ← try (fetchAddressData fuel address);
      results ← match fetched with
                | inr _ => log "Bad fetch for address: %s with error %s" ;; mret results
                | inl data => mret (results ++ [Some data])
                end;
      sleep 30 ;; (* Cool down timer to avoid getting rate limited *)
      fetchEach fuel rest results
  end.

(** The second loop of [SyncWallets]. [result.Address] is read before
    anything else, with no test of [result]. *)
Fixpoint commitEach (tx : Tx) (results : list (option AddressData)) : M unit :=
  match results with
  | [] => mret ()
  | None :: _ => throw NilPointerDereference
  | Some result :: rest =>
      balance ← try (data.UpdateBalance tx (Address result) (Balance result));
      match balance with
      | inr _ =>
          log "Failed to update the balance for address: " ;;
          log "failed to update balance for address: %s with error: %s"
      | inl _ => mret ()
      end ;;
      transactions ← try (data.UpdateTransactions tx result);
      match transactions with
      | inr _ =>
          log "Failed to update the transactions for address: " ;;
          log "failed to update balance for address: %s with error: %s"
      | inl _ => mret ()
      end ;;
      commitEach tx rest
  end.

(** [SyncWallets] from [StartTransaction] on: the transaction, the second
    loop and the commit. The handle that [StartTransaction] returns is the
    one the writes and the commit use; when it could not be begun the
    handle is nil. *)
Definition commitResults (results : list (option AddressData)) : M unit :=
  (* Start transaction to insert values *)
  started ← try data.StartTransaction;
  tx ← match started with
       | inr _ => log "failed to begin transaction during sync: %s" ;; mret nilTx
       | inl tx => mret tx
       end;
  commitEach tx results ;;
  committed ← try (data.CommitTransaction tx);
  match committed with
  | inr _ =>
      log "Failed to commit the transaction for setting fresh values" ;;
      log "failed to commit transaction: %s"
  | inl _ => mret ()
  end ;;
  log "Successfully updated all values for wallet".

(** [SyncWallets] up to [StartTransaction]: the addresses and the first
    loop. A failure of [GetAllAddresses] is logged and leaves [addresses]
    nil, which the next line dereferences. *)
Definition collectResults (fuel : nat) : M (list (option AddressData)) :=
  listed ← try data.GetAllAddresses;
  addresses ← match listed with
               | inr _ =>
                   log "failed to get all addresses for wallet sync: %s" ;;
                   throw NilPointerDereference
               | inl addresses => mret addresses
               end;
  fetchEach fuel addresses (replicate (length addresses) None).

Definition SyncWallets (fuel : nat) : M unit :=
  results ← collectResults fuel;
  commitResults results.

Definition GetBalance (address : string) : M Z := data.GetBalance address.

Definition GetAllAddresses : M (list string) := data.GetAllAddresses.

End Wallet.

End cointracker.

(** ** Package main: the handlers of the runner *)

Module runner.

(** What a handler has written when it returns: the status and the body. A
    handler that writes nothing answers 200 with an empty body. *)
Record Written : Type := mkWritten {
  Status : Z;
  Body : string
}.

Definition newline : string := String (Ascii.Ascii false true false true false false false false) "".

Definition nothing : Written := mkWritten 200 "".

(** [http.Error(w, error, code)]: the status, and the message on a line. *)
Definition Error (error : string) (code : Z) : Written := mkWritten code (error +:+ newline).

Definition StatusInternalServerError : Z := 500.
Definition StatusConflict : Z := 409.
Definition StatusNotFound : Z := 404.
Definition StatusMethodNotAllowed : Z := 405.

Definition addAddress (address : string) : M Written :=
  added ← try (cointracker.AddAddress address);
  match added with
  | inr _ =>
      log "Error while adding new address:" ;;
      mret (Error "Error adding new address" StatusInternalServerError)
  | inl true =>
      log "Provided addresss already exist" ;;
      mret (Error "Cannot add duplicate addresses" StatusConflict)
  | inl false => mret nothing
  end.

Definition removeAddress (address : string) : M Written :=
  removed ← try (cointracker.RemoveAddress address);
  match removed with
  | inr _ =>
      log "Error while removing given address:" ;;
      mret (Error "Error removing given address" StatusInternalServerError)
  | inl false =>
      log "Provided addresss does not exist" ;;
      mret (Error "Cannot remove non-existent address" StatusNotFound)
  | inl true => mret nothing
  end.

(** [updateAddress] for a request with the given method and the given value
    of the query parameter [address] (empty when the request has none). *)
Definition updateAddress (method address : string) : M Written :=
  if decide (method = "POST") then addAddress address
  else if decide (method = "DELETE") then removeAddress address
  else mret (Error "Invalid request method" StatusMethodNotAllowed).

End runner.

(** ** Vocabulary of the properties *)

(** What a call into the driver leaves as it was. *)
Definition sameTables (w w' : World) : Prop :=
  store w' = store w ∧ pending w' = pending w ∧ events w' = events w.

(** The tables once an address and all its transactions are removed. *)
Definition removed (address : string) (t : Tables) : Tables :=
  mkTables (delete address (wallet t))
           (filter (λ entry, ¬ belongsTo address entry) (transactions t)).

(** Every transaction belongs to an address of the wallet. *)
Definition noOrphans (t : Tables) : Prop :=
  ∀ i row, transactions t !! i = Some row → is_Some (wallet t !! row_address row).

(** A row is recorded for an address under an index. *)
Definition holds (t : Tables) (address : string) (tx_index : Z) : Prop :=
  ∃ row, transactions t !! tx_index = Some row ∧ row_address row = address.

(** A computation that leaves the committed and the staged tables as they
    are, whatever it comes to. *)
Definition keepsTables {A : Type} (c : M A) : Prop :=
  ∀ w, store (c w).2 = store w ∧ pending (c w).2 = pending w.

(** A computation that comes to an end within its fuel, whatever the
    world. *)
Definition finishes {A : Type} (c : M A) : Prop := ∀ w, (c w).1 ≠ Unfinished.

(** The pages that a count of [total] records asks for from [offset] on: at
    least the one that is always fetched. *)
Definition pagesLeft (total offset : Z) : Z :=
  Z.max 1 ((total - offset + (cointracker.limit - 1)) `div` cointracker.limit).

(** The log line and the error of a reply that fails the fetch of a page:
    no reply, a status other than 200, a body that cannot be read or is not
    the JSON of a response. *)
Definition failureOf (reply : http.Reply) : option (string * error) :=
  match reply with
  | http.GetError =>
      Some ("Error while making request to API:",
            Wrapf "failed to fetch address data: %w" [] (External "net/http"))
  | http.Response StatusCode body =>
      if decide (StatusCode ≠ http.StatusOK)
      then Some ("Bad response code from API call:",
                 Errorf "API request failed with status: %d" [ArgD StatusCode])
      else match body with
           | http.Unreadable =>
               Some ("Error while reading response body:",
                     Wrapf "failed to read response body: %w" [] (External "io"))
           | http.Undecodable =>
               Some ("Error parsing JSON body",
                     Wrapf "failed to parse API resonse body into raw response: %w" []
                       (External "encoding/json"))
           | http.Decoded _ => None
           end
  end.

(** The events of fetching the pages at the given offsets and pausing after
    each. *)
Definition pagesThenPause (address : string) (offsets : list Z) : list event :=
  offsets ≫= λ offset, [HttpGet address cointracker.limit offset; Sleep 15].

(** The status that [updateAddress] answers with when the driver does not
    fail, read off the request and the wallet. *)
Definition statusFor (method address : string) (t : Tables) : Z :=
  let stored := bool_decide (is_Some (wallet t !! address)) in
  if decide (method = "POST") then
    if bool_decide (String.length address = 0 ∨ 42 < String.length address)%nat then 500%Z
    else if stored then 409%Z else 200%Z
  else if decide (method = "DELETE") then
    if stored then 200%Z else 404%Z
  else 405%Z.

(** A computation that returns, with a value or with an error: it does not
    panic and is not cut short. *)
Definition returns {A : Type} (c : M A) : Prop :=
  ∀ w, match (c w).1 with Ok _ | Err _ => True | Panic _ | Unfinished => False end.

(** A computation that only adds events, all of them of a kind. *)
Definition appends {A : Type} (kind : event → Prop) (c : M A) : Prop :=
  ∀ w, ∃ more, events (c w).2 = events w ++ more ∧ Forall kind more.

(** An event that is no request for an address outside [addresses]. *)
Definition asksOnly (addresses : list string) (e : event) : Prop :=
  ∀ address limit offset, e = HttpGet address limit offset → address ∈ addresses.

#[global] Instance event_eq_dec : EqDecision event.
Proof. solve_decision. Defined.

(** The pause between two addresses. *)
Definition coolDown : event := Sleep 30.

(** How often a sync paused between addresses. *)
Definition coolDowns (evs : list event) : nat := length (filter (λ e, e = coolDown) evs).

(** The world with further events. *)
Definition logged (w : World) (more : list event) : World :=
  mkWorld (store w) (pending w) (faults w) (events w ++ more).

(** The transaction of a raw record that is an object (or null) with a
    number under [tx_index] and a string under [hash]; such a record is
    well formed. *)
Definition normalize (rawTx : types.RawMessage) : option types.Transaction :=
  match json.Unmarshal rawTx with
  | inr txMap =>
      match json.index txMap "tx_index", json.index txMap "hash" with
      | types.JNumber tx_index, types.JString hash =>
          Some (types.mkTransaction (int64_of_float64 tx_index) hash (types.bytes rawTx))
      | _, _ => None
      end
  | inl _ => None
  end.

Definition wellFormed (response : types.RawAddressResponse) : Prop :=
  Forall (λ rawTx, is_Some (normalize rawTx)) (types.RawTxs response).

(** The events of fetching pages at the given offsets, one after the other:
    a request for each, and the pause of 15 seconds between two. *)
Fixpoint pageEvents (address : string) (offsets : list Z) : list event :=
  match offsets with
  | [] => []
  | [offset] => [HttpGet address cointracker.limit offset]
  | offset :: rest => HttpGet address cointracker.limit offset :: Sleep 15 :: pageEvents address rest
  end.

(** The offsets of [n] pages from page [j] on. *)
Definition pageOffsets (j : nat) (n : nat) : list Z :=
  (λ i, cointracker.limit * Z.of_nat i)%Z <$> seq j n.

(** A page after which the loop goes on: it is not short, and the offset
    after it is below the count it reports. *)
Definition goesOn (response : types.RawAddressResponse) (page : nat) : Prop :=
  ¬ (Z.of_nat (length (types.RawTxs response)) < cointracker.limit)%Z ∧
  (cointracker.limit * (Z.of_nat page + 1) < types.NTx response)%Z.

(** A page after which the loop stops. *)
Definition stops (response : types.RawAddressResponse) (page : nat) : Prop :=
  (Z.of_nat (length (types.RawTxs response)) < cointracker.limit)%Z ∨
  (types.NTx response ≤ cointracker.limit * (Z.of_nat page + 1))%Z.

(** The [data] of [fetchAddressData] after a response: set from the first
    response, and left alone by the later ones. *)
Definition headerOf (data : option types.AddressData)
    (response : types.RawAddressResponse) : types.AddressData :=
  match data with
  | Some d => d
  | None => types.mkAddressData (types.RawAddress response) (types.FinalBalance response)
                                (types.NTx response) []
  end.

(** [data.Txs = allTxs]. *)
Definition withTxs (d : types.AddressData) (txs : list types.Transaction) : types.AddressData :=
  types.mkAddressData (types.Address d) (types.Balance d) (types.NumTxs d) txs.

(** The indices of the transactions of a fetched [AddressData]. *)
Definition indicesOf (fetched : result types.AddressData) : option (list Z) :=
  match fetched with
  | Ok d => Some (types.Index <$> types.Txs d)
  | _ => None
  end.

(** The entries of a collected slice by their addresses, nil entries as
    [None]. *)
Definition addressesOf (collected : result (list (option types.AddressData)))
    : option (list (option string)) :=
  match collected with
  | Ok results => Some (map (option_map types.Address) results)
  | _ => None
  end.

(** ** Sample data

    The inputs the properties are tried on: tables, worlds, raw records and
    a source that serves a fixed number of records. *)

Module sample.
Import types.

Definition genesis : string := "1A1zP1eP5QGefi2DMPTfTL5SLmv7DivfNa".

Definition other : string := "12c6DSiU4Rq3P4ZxziKxzrL5LmMBrzjrJX".

(** A world with no transaction open and no driver failure to come. *)
Definition quiet (t : Tables) : World := mkWorld t None [] [].

(** A world with a transaction just begun on [t]. *)
Definition inTransaction (t : Tables) : World := mkWorld t (Some t) [] [].

(** The [float64] that [encoding/json] reads from the digits of [i]. *)
Definition number (i : Z) : float :=
  SF2Prim match i with
          | Z0 => S754_zero false
          | Zpos p => S754_finite false p 0
          | Zneg p => S754_finite true p 0
          end.

Definition quote : string := String (Ascii.Ascii false true false false false true false false) "".

Definition member (key text : string) : string := quote +:+ key +:+ quote +:+ ":" +:+ text.

(** The raw record with ordinal [i] and hash [h<i>], as the explorer writes
    it. *)
Definition record (i : Z) : RawMessage :=
  let hash := "h" +:+ pretty i in
  mkRawMessage
    ("{" +:+ member "hash" (quote +:+ hash +:+ quote) +:+ "," +:+ member "tx_index" (pretty i) +:+ "}")
    (JObject [("hash", JString hash); ("tx_index", JNumber (number i))]).

(** A record that lacks its ordinal. *)
Definition recordWithoutOrdinal : RawMessage :=
  mkRawMessage ("{" +:+ member "hash" (quote +:+ "h0" +:+ quote) +:+ "}")
               (JObject [("hash", JString "h0")]).

(** The transaction that [record i] is normalized to. *)
Definition transaction (i : Z) : Transaction :=
  mkTransaction i ("h" +:+ pretty i) (bytes (record i)).

(** The records from [offset] on, at most [limit] of them, of a history of
    [total] records. *)
Definition page (total limit offset : Z) : list RawMessage :=
  (λ k, record (offset + Z.of_nat k)) <$> seq 0 (Z.to_nat (Z.min limit (total - offset))).

(** The response for one page of a source that holds [held] records for
    every address and reports the count [reported]. *)
Definition response (held reported balance : Z) (address : string) (limit offset : Z)
    : RawAddressResponse :=
  mkRawAddressResponse "" address reported 0 0 0 balance (page held limit offset).

Definition explorer (held reported balance : Z) : http.Api := λ address limit offset,
  http.Response 200 (http.Decoded (response held reported balance address limit offset)).

(** A source that serves 3 records for the genesis address and is out of
    reach for every other address. *)
Definition reachesGenesisOnly : http.Api := λ address limit offset,
  if decide (address = genesis) then explorer 3 3 77 address limit offset
  else http.GetError.

(** A source whose first record for the genesis address lacks its ordinal,
    and which serves 3 records for every other address. *)
Definition malformedForGenesis : http.Api := λ address limit offset,
  if decide (address = genesis)
  then http.Response 200
         (http.Decoded (mkRawAddressResponse "" address 2 0 0 0 77
                          [recordWithoutOrdinal; record 1]))
  else explorer 3 3 77 address limit offset.

(** The same with the two addresses exchanged: the first record for the
    other address lacks its ordinal. *)
Definition malformedForOther : http.Api := λ address limit offset,
  if decide (address = other)
  then http.Response 200
         (http.Decoded (mkRawAddressResponse "" address 2 0 0 0 77
                          [recordWithoutOrdinal; record 1]))
  else explorer 3 3 77 address limit offset.

(** The store with the two sample addresses and no transaction. *)
Definition twoAddresses : Tables :=
  mkTables {[genesis := 0%Z; other := 0%Z]} ∅.

End sample.

(** * Properties *)

(** ** The monad *)

Lemma bind_run {A B : Type} (c : M A) (f : A → M B) (w : World) :
  (c ≫= f) w =
  match c w with
  | (Ok a, w') => f a w'
  | (Err e, w') => (Err e, w')
  | (Panic p, w') => (Panic p, w')
  | (Unfinished, w') => (Unfinished, w')
  end.
Proof. reflexivity. Qed.

Lemma bind_Ok {A B : Type} (c : M A) (f : A → M B) (w w' : World) (b : B) :
  (c ≫= f) w = (Ok b, w') → ∃ a w1, c w = (Ok a, w1) ∧ f a w1 = (Ok b, w').
Proof.
  rewrite bind_run. destruct (c w) as [[a | e | p |] w1]; try discriminate.
  intros Hf. by exists a, w1.
Qed.

Lemma wrapping_Ok {A : Type} (f : error → error) (c : M A) (w w' : World) (a : A) :
  wrapping f c w = (Ok a, w') ↔ c w = (Ok a, w').
Proof.
  unfold wrapping. destruct (c w) as [[a1 | e | p |] w1]; split; congruence.
Qed.

Lemma wrapping_world {A : Type} (f : error → error) (c : M A) (w : World) :
  (wrapping f c w).2 = (c w).2.
Proof. unfold wrapping. by destruct (c w) as [[a1 | e | p |] w1]. Qed.

(** ** The driver and the statements *)

Lemma sameTables_refl w : sameTables w w.
Proof. by repeat split. Qed.

Lemma driver_cases (w : World) :
  ∃ w1, sameTables w w1 ∧
        (sql.driver w = (Ok (), w1) ∨ sql.driver w = (Err (External "database/sql"), w1)).
Proof.
  unfold sql.driver. destruct (faults w) as [| [] rest].
  - exists w. split; [apply sameTables_refl | by left].
  - eexists. split; [| by right]. by repeat split.
  - eexists. split; [| by left]. by repeat split.
Qed.

Lemma driver_no_fault (w : World) : faults w = [] → sql.driver w = (Ok (), w).
Proof. unfold sql.driver. by intros ->. Qed.

Lemma run_updateTx_recorded (t : Tables) (tx_index : Z) (hash address data : string) :
  is_Some (transactions t !! tx_index) →
  run (updateTxQuery tx_index hash address data) t = Some (0%Z, t).
Proof. intros [row Hrow]. simpl. by rewrite Hrow. Qed.

Lemma run_updateTx_keeps (t t' : Tables) (rows i tx_index : Z) (hash address data : string)
    (row : TxRow) :
  run (updateTxQuery tx_index hash address data) t = Some (rows, t') →
  transactions t !! i = Some row → transactions t' !! i = Some row.
Proof.
  simpl. destruct (transactions t !! tx_index) as [old |] eqn:Hold; intros [= <- <-]; [done |].
  simpl. intros Hi. rewrite lookup_insert_ne; [done | congruence].
Qed.

Lemma run_updateTx_records (t t' : Tables) (rows tx_index : Z) (hash address data : string) :
  run (updateTxQuery tx_index hash address data) t = Some (rows, t') →
  is_Some (transactions t' !! tx_index).
Proof.
  simpl. destruct (transactions t !! tx_index) as [row |] eqn:Hrow; intros [= <- <-].
  - rewrite Hrow. eauto.
  - simpl. rewrite lookup_insert_eq. eauto.
Qed.

(** A statement inside the transaction: it fails and stages nothing, or it
    runs on the staged tables. The committed tables are not touched. *)
Lemma TxExec_cases (q : query) (w w' : World) (r : result Z) :
  sql.TxExec openTx q w = (r, w') →
  store w' = store w ∧ events w' = events w ∧
  ((∃ e, r = Err e ∧ pending w' = pending w) ∨
   (∃ staged rows t, pending w = Some staged ∧ run q staged = Some (rows, t) ∧
                     r = Ok rows ∧ pending w' = Some t)).
Proof.
  unfold sql.TxExec. rewrite bind_run.
  destruct (driver_cases w) as (w1 & (Hs & Hp & He) & [-> | ->]).
  - unfold step. destruct (pending w1) as [staged |] eqn:Hpending.
    + destruct (run q staged) as [[rows t] |] eqn:Hrun; intros [= <- <-]; simpl.
      * split; [done | split; [done |]]. right. exists staged, rows, t. repeat split; congruence.
      * split; [done | split; [done |]]. left. eexists. split; [done | congruence].
    + intros [= <- <-]. split; [done | split; [done |]]. left. eexists. split; [done | congruence].
  - intros [= <- <-]. split; [done | split; [done |]]. left. eexists. split; [done | congruence].
Qed.

Lemma TxExec_no_fault (q : query) (w : World) (staged t : Tables) (rows : Z) :
  faults w = [] → pending w = Some staged → run q staged = Some (rows, t) →
  sql.TxExec openTx q w = (Ok rows, mkWorld (store w) (Some t) (faults w) (events w)).
Proof.
  intros Hf Hp Hrun. unfold sql.TxExec. rewrite bind_run, (driver_no_fault w Hf).
  unfold step. by rewrite Hp, Hrun.
Qed.

Lemma wrapped_TxExec_cases (f : error → error) (q : query) (w w' : World) (r : result Z) :
  wrapping f (sql.TxExec openTx q) w = (r, w') →
  store w' = store w ∧ events w' = events w ∧
  ((∃ e, r = Err e ∧ pending w' = pending w) ∨
   (∃ staged rows t, pending w = Some staged ∧ run q staged = Some (rows, t) ∧
                     r = Ok rows ∧ pending w' = Some t)).
Proof.
  unfold wrapping. destruct (sql.TxExec openTx q w) as [r0 w0] eqn:Hexec.
  apply TxExec_cases in Hexec as (Hs & He & Hcases).
  destruct r0 as [rows | e | p |]; intros [= <- <-]; (split; [done | split; [done |]]).
  - destruct Hcases as [(e & ? & ?) | Hran]; [discriminate | by right].
  - left. destruct Hcases as [(e' & _ & ?) | (? & ? & ? & _ & _ & ? & _)]; [eauto | discriminate].
  - destruct Hcases as [(e & ? & ?) | (? & ? & ? & _ & _ & ? & _)]; discriminate.
  - destruct Hcases as [(e & ? & ?) | (? & ? & ? & _ & _ & ? & _)]; discriminate.
Qed.

(** ** Upserts *)

Lemma updateEach_cons (tx : Tx) (address : string) (t : types.Transaction)
    (txs : list types.Transaction) :
  data.updateEach tx address (t :: txs) =
  (wrapping (Wrapf "failed to update transactions for index %d: %w" [ArgD (types.Index t)])
     (sql.TxExec tx (updateTxQuery (types.Index t) (types.Hash t) address (types.Data t))) ;;
   data.updateEach tx address txs).
Proof. reflexivity. Qed.

(** Once every index of the list is recorded in the staged tables, the
    inserts change nothing, whatever the driver does. *)
Lemma updateEach_recorded (txs : list types.Transaction) (address : string)
    (w w' : World) (staged : Tables) (r : result unit) :
  pending w = Some staged →
  (∀ t, t ∈ txs → is_Some (transactions staged !! types.Index t)) →
  data.updateEach openTx address txs w = (r, w') →
  pending w' = Some staged ∧ store w' = store w.
Proof.
  revert w. induction txs as [| t txs IH]; intros w Hp Hall.
  - by intros [= <- <-].
  - rewrite updateEach_cons, bind_run.
    destruct (wrapping _ _ w) as [r1 w1] eqn:Hw.
    assert (pending w1 = Some staged ∧ store w1 = store w) as [Hp1 Hs1].
    { apply wrapped_TxExec_cases in Hw
        as (Hs & _ & [(e & _ & Hpe) | (st & rows & t' & Hst & Hrun & _ & Hpe)]).
      - split; congruence.
      - rewrite Hp in Hst. injection Hst as <-.
        rewrite run_updateTx_recorded in Hrun by (apply Hall; left).
        injection Hrun as <- <-. by rewrite Hpe. }
    destruct r1 as [rows | e | p |]; try (intros [= <- <-]; split; congruence).
    intros Hrest. apply IH in Hrest as [? ?]; [split; congruence | done |].
    intros t0 Ht0. apply Hall. by right.
Qed.

(** A recorded row stays as it is through further inserts, whatever they
    come to. *)
Lemma updateEach_keeps (txs : list types.Transaction) (address : string)
    (w w' : World) (staged : Tables) (i : Z) (row : TxRow) (r : result unit) :
  pending w = Some staged → transactions staged !! i = Some row →
  data.updateEach openTx address txs w = (r, w') →
  ∃ staged', pending w' = Some staged' ∧ transactions staged' !! i = Some row.
Proof.
  revert w staged. induction txs as [| t txs IH]; intros w staged Hp Hi.
  - intros [= <- <-]. eauto.
  - rewrite updateEach_cons, bind_run.
    destruct (wrapping _ _ w) as [r1 w1] eqn:Hw.
    apply wrapped_TxExec_cases in Hw
      as (_ & _ & [(e & -> & Hpe) | (st & rows & t' & Hst & Hq & -> & Hpe)]).
    + intros [= <- <-]. exists staged. split; congruence.
    + rewrite Hp in Hst. injection Hst as <-.
      eapply IH; [exact Hpe |]. eapply run_updateTx_keeps; eauto.
Qed.

(** After the inserts went through, every index of the list is recorded in
    the staged tables. *)
Lemma updateEach_records (txs : list types.Transaction) (address : string) (w w' : World) :
  data.updateEach openTx address txs w = (Ok (), w') →
  ∀ t, t ∈ txs →
  ∃ staged, pending w' = Some staged ∧ is_Some (transactions staged !! types.Index t).
Proof.
  revert w. induction txs as [| t txs IH]; intros w.
  - intros _ t Ht. by apply elem_of_nil in Ht.
  - rewrite updateEach_cons. intros Hrun.
    apply bind_Ok in Hrun as (affected & w1 & Hfirst & Hrest).
    intros t0 Ht0. apply elem_of_cons in Ht0 as [-> | Ht0]; [| by eapply IH].
    apply wrapped_TxExec_cases in Hfirst
      as (_ & _ & [(e & ? & _) | (st & rows & t' & _ & Hq & _ & Hpe)]); [discriminate |].
    apply run_updateTx_records in Hq as [row Hrow].
    destruct (updateEach_keeps _ _ _ _ _ _ _ _ Hpe Hrow Hrest) as (staged & ? & ?).
    exists staged. eauto.
Qed.

Lemma Begin_Ok (w w' : World) (tx : Tx) :
  sql.Begin w = (Ok tx, w') →
  tx = openTx ∧ store w' = store w ∧ pending w' = Some (store w) ∧ events w' = events w.
Proof.
  unfold sql.Begin. rewrite bind_run.
  destruct (driver_cases w) as (w1 & (Hs & Hp & He) & [-> | ->]); [| discriminate].
  unfold step. intros [= <- <-]. simpl. repeat split; congruence.
Qed.

Lemma Begin_cases (w w' : World) (r : result Tx) :
  sql.Begin w = (r, w') →
  store w' = store w ∧ ((∃ e, r = Err e) ∨ (r = Ok openTx ∧ pending w' = Some (store w))).
Proof.
  unfold sql.Begin. rewrite bind_run.
  destruct (driver_cases w) as (w1 & (Hs & Hp & He) & [-> | ->]).
  - unfold step. intros [= <- <-]. simpl. split; [done |]. right. split; congruence.
  - intros [= <- <-]. split; [done |]. left. eauto.
Qed.

Lemma Commit_Ok (w w' : World) :
  sql.Commit openTx w = (Ok (), w') →
  pending w = Some (store w') ∧ pending w' = None ∧ events w' = events w.
Proof.
  unfold sql.Commit. rewrite bind_run.
  destruct (driver_cases w) as (w1 & (Hs & Hp & He) & [-> | ->]); [| discriminate].
  unfold step. destruct (pending w1) as [staged |] eqn:Hpending; [| discriminate].
  intros [= <-]. simpl. repeat split; congruence.
Qed.

(** A commit that fails leaves the committed tables as they were. *)
Lemma Commit_cases (w w' : World) (r : result unit) :
  sql.Commit openTx w = (r, w') →
  events w' = events w ∧
  ((∃ e, r = Err e ∧ store w' = store w ∧ pending w' = pending w) ∨
   (r = Ok () ∧ pending w = Some (store w') ∧ pending w' = None)).
Proof.
  unfold sql.Commit. rewrite bind_run.
  destruct (driver_cases w) as (w1 & (Hs & Hp & He) & [-> | ->]).
  - unfold step. destruct (pending w1) as [staged |] eqn:Hpending; intros [= <- <-]; simpl.
    + split; [done |]. right. repeat split; congruence.
    + split; [done |]. left. eexists. repeat split; congruence.
  - intros [= <- <-]. split; [done |]. left. eexists. repeat split; congruence.
Qed.

(** C5. Transaction upsert is idempotent on the index key. For every state
    of the tables and every transaction whose index is already recorded for
    its address, inserting it again affects zero rows and leaves the tables,
    and with them the stored payload, as they were. Hence applying a
    snapshot's transactions again with [UpdateTransactions] changes nothing:
    not when every index is already recorded in the tables the transaction
    sees, not right after a first application in the same transaction, and
    not in a new transaction begun after the first one was committed. This
    holds whatever the driver does (a failing call changes nothing
    either). *)
Theorem upsert_is_idempotent :
  (∀ (t : Tables) (tx_index : Z) (hash address payload : string) (row : TxRow),
     transactions t !! tx_index = Some row → row_address row = address →
     run (updateTxQuery tx_index hash address payload) t = Some (0%Z, t)) ∧
  (∀ (snapshot : types.AddressData) (w w' : World) (staged : Tables) (r : result unit),
     pending w = Some staged →
     (∀ t, t ∈ types.Txs snapshot → is_Some (transactions staged !! types.Index t)) →
     data.UpdateTransactions openTx snapshot w = (r, w') →
     pending w' = Some staged ∧ store w' = store w) ∧
  (∀ (snapshot : types.AddressData) (w w1 w2 : World) (r : result unit),
     data.UpdateTransactions openTx snapshot w = (Ok (), w1) →
     data.UpdateTransactions openTx snapshot w1 = (r, w2) →
     pending w2 = pending w1 ∧ store w2 = store w1) ∧
  (∀ (snapshot : types.AddressData) (w w1 w2 w3 w4 : World) (tx : Tx) (r : result unit),
     data.UpdateTransactions openTx snapshot w = (Ok (), w1) →
     data.CommitTransaction openTx w1 = (Ok (), w2) →
     data.StartTransaction w2 = (Ok tx, w3) →
     data.UpdateTransactions tx snapshot w3 = (r, w4) →
     pending w4 = Some (store w2) ∧ store w4 = store w2).
Proof.
  split; [| split; [| split]].
  - intros t tx_index hash address payload row Hrow _.
    apply run_updateTx_recorded. eauto.
  - intros snapshot w w' staged r Hp Hall Hrun.
    by eapply updateEach_recorded.
  - intros snapshot w w1 w2 r Hfirst Hagain. unfold data.UpdateTransactions in *.
    destruct (types.Txs snapshot) as [| t txs] eqn:Htxs.
    + by injection Hagain as <- <-.
    + destruct (updateEach_records _ _ _ _ Hfirst t) as (staged & Hp & _); [by left |].
      rewrite Hp. eapply updateEach_recorded; [exact Hp | | exact Hagain].
      intros t0 Ht0. destruct (updateEach_records _ _ _ _ Hfirst t0 Ht0) as (staged0 & Hp0 & ?).
      congruence.
  - intros snapshot w w1 w2 w3 w4 tx r Hfirst Hcommit Hbegin Hagain.
    apply Commit_Ok in Hcommit as (Hstaged & _ & _).
    apply wrapping_Ok, Begin_Ok in Hbegin as (-> & Hs3 & Hp3 & _).
    assert (pending w4 = Some (store w2) ∧ store w4 = store w3) as [? ?]; [| split; congruence].
    eapply updateEach_recorded; [exact Hp3 | | exact Hagain].
    intros t Ht. destruct (updateEach_records _ _ _ _ Hfirst t Ht) as (staged & Hp & ?).
    congruence.
Qed.

(** The idempotence of C5 on the sample data: index 7 is recorded for the
    genesis address, and the snapshot holding transactions 7 and 8 is applied
    twice. *)
Lemma upsert_is_idempotent_witness :
  let recorded := mkTables {[sample.genesis := 0%Z]}
                           {[7%Z := mkTxRow "h7" sample.genesis "old payload"]} in
  let snapshot := types.mkAddressData sample.genesis 5
                    2 [sample.transaction 7; sample.transaction 8] in
  let w1 := (data.UpdateTransactions openTx snapshot (sample.inTransaction recorded)).2 in
  let w2 := (data.UpdateTransactions openTx snapshot w1).2 in
  run (updateTxQuery 7 "h7" sample.genesis "new payload") recorded = Some (0%Z, recorded) ∧
  (pending w2 = pending w1 ∧ store w2 = store w1) ∧
  (row_data <$> (pending w2 ≫= λ staged, transactions staged !! 7%Z)) = Some "old payload".
Proof.
  intros recorded snapshot w1 w2. split; [| split].
  - apply (proj1 upsert_is_idempotent) with (row := mkTxRow "h7" sample.genesis "old payload");
      reflexivity.
  - apply (proj1 (proj2 (proj2 upsert_is_idempotent)) snapshot
             (sample.inTransaction recorded) w1 w2
             (data.UpdateTransactions openTx snapshot w1).1).
    + vm_compute. reflexivity.
    + vm_compute. reflexivity.
  - vm_compute. reflexivity.
Defined.

(** ** The key of table transactions *)

(** What C7 says fails where it lets two addresses hold the same index: with
    index 7 recorded for the genesis address, the insert of a transaction of
    another address under index 7 is ignored, and that address holds no
    transaction under it. *)
Lemma tx_index_not_scoped_per_address :
  ∃ t t' : Tables,
    holds t sample.genesis 7 ∧
    run (updateTxQuery 7 "h7" sample.other "payload") t = Some (0%Z, t') ∧
    t' = t ∧
    ∀ row, transactions t' !! 7%Z = Some row → row_address row ≠ sample.other.
Proof.
  exists (mkTables {[sample.genesis := 0%Z; sample.other := 0%Z]}
                   {[7%Z := mkTxRow "h7" sample.genesis "payload"]}).
  eexists. split; [| split; [| split]].
  - eexists. split; [apply lookup_singleton_eq | done].
  - reflexivity.
  - reflexivity.
  - simpl. intros row. rewrite lookup_singleton_eq. by intros [= <-].
Qed.

(** C7, amended. The transaction index is a uniqueness key of the whole
    table: the store keeps at most one transaction for an index, whatever
    the address, and therefore at most one for a pair of address and index.
    An insert under an index that some address already holds is ignored, so
    once one address holds an index no other address comes to hold it, by an
    insert or by a whole [UpdateTransactions]. *)
Theorem tx_index_is_a_key_of_the_table
    (t : Tables) (tx_index : Z) (hash payload holder address : string) :
  holds t holder tx_index →
  (holds t address tx_index → address = holder) ∧
  run (updateTxQuery tx_index hash address payload) t = Some (0%Z, t) ∧
  (∀ (snapshot : types.AddressData) (w w' : World) (r : result unit),
     pending w = Some t → types.Address snapshot ≠ holder →
     data.UpdateTransactions openTx snapshot w = (r, w') →
     ∃ staged, pending w' = Some staged ∧ holds staged holder tx_index ∧
               ¬ holds staged (types.Address snapshot) tx_index).
Proof.
  intros (row & Hrow & Hholder). split; [| split].
  - intros (row' & Hrow' & Haddress). congruence.
  - apply run_updateTx_recorded. eauto.
  - intros snapshot w w' r Hp Hne Hrun.
    destruct (updateEach_keeps _ _ _ _ _ _ _ _ Hp Hrow Hrun) as (staged & Hp' & Hkept).
    exists staged. split; [done |]. split.
    + by exists row.
    + intros (row' & Hrow' & Haddress). congruence.
Qed.

Lemma tx_index_is_a_key_of_the_table_witness :
  let t := mkTables {[sample.genesis := 0%Z; sample.other := 0%Z]}
                    {[7%Z := mkTxRow "h7" sample.genesis "payload"]} in
  holds t sample.genesis 7 ∧
  run (updateTxQuery 7 "h7" sample.other "payload") t = Some (0%Z, t).
Proof.
  intros t.
  assert (holds t sample.genesis 7) as Hholds.
  { eexists. split; vm_compute; reflexivity. }
  split; [exact Hholds |].
  exact (proj1 (proj2 (tx_index_is_a_key_of_the_table t 7 "h7" "payload"
                         sample.genesis sample.other Hholds))).
Defined.

(** ** Row counts *)

Lemma validateEffectedRows_mismatch (numRows : Z) (operation : string) (w : World) :
  numRows ≠ 1%Z →
  data.validateEffectedRows numRows operation w =
  (Err (Errorf "invalid number of effected rows in %s - Expected: 1, Actual: %d"
          [ArgS operation; ArgD numRows]), w).
Proof. intros Hne. unfold data.validateEffectedRows. by rewrite decide_True. Qed.

Lemma validateEffectedRows_one (operation : string) (w : World) :
  data.validateEffectedRows 1 operation w = (Ok (), w).
Proof. reflexivity. Qed.

Lemma run_updateBalance (t : Tables) (balance : Z) (address : string) :
  run (updateBalaceQuery balance address) t =
  match wallet t !! address with
  | Some _ => Some (1%Z, mkTables (<[address := balance]> (wallet t)) (transactions t))
  | None => Some (0%Z, t)
  end.
Proof. reflexivity. Qed.

(** With no driver failure and a transaction open, the inserts of
    [UpdateTransactions] all go through: how many rows each affected is not
    looked at. *)
Lemma updateEach_no_fault (txs : list types.Transaction) (address : string)
    (w : World) (staged : Tables) :
  faults w = [] → pending w = Some staged →
  ∃ w', data.updateEach openTx address txs w = (Ok (), w') ∧
        faults w' = [] ∧ store w' = store w ∧ events w' = events w.
Proof.
  revert w staged. induction txs as [| t txs IH]; intros w staged Hf Hp.
  - by exists w.
  - rewrite updateEach_cons, bind_run.
    destruct (run (updateTxQuery (types.Index t) (types.Hash t) address (types.Data t)) staged)
      as [[rows t'] |] eqn:Hrun.
    + unfold wrapping. rewrite (TxExec_no_fault _ _ _ _ _ Hf Hp Hrun).
      destruct (IH (mkWorld (store w) (Some t') (faults w) (events w)) t' Hf eq_refl)
        as (w' & -> & ? & ? & ?).
      by exists w'.
    + simpl in Hrun. by destruct (transactions staged !! types.Index t).
Qed.

(** What C6 says fails for [UpdateTransactions]: an insert that affects no
    row, its index being recorded already, is no error. *)
Lemma upsert_of_zero_rows_succeeds :
  ∃ (w : World) (snapshot : types.AddressData) (staged : Tables) (t : types.Transaction),
    pending w = Some staged ∧ types.Txs snapshot = [t] ∧
    run (updateTxQuery (types.Index t) (types.Hash t) (types.Address snapshot) (types.Data t))
        staged = Some (0%Z, staged) ∧
    (data.UpdateTransactions openTx snapshot w).1 = Ok ().
Proof.
  pose (staged := mkTables {[sample.genesis := 0%Z]}
                           {[7%Z := mkTxRow "h7" sample.genesis (types.bytes (sample.record 7))]}).
  exists (sample.inTransaction staged),
         (types.mkAddressData sample.genesis 5 1 [sample.transaction 7]),
         staged, (sample.transaction 7).
  repeat split; vm_compute; reflexivity.
Qed.

(** C6, amended. Every [UpdateBalance] inside the transaction boundary must
    affect exactly one row: a count other than one (none, or more than one)
    makes the check of the row count fail, and [UpdateBalance] returns an
    error unless exactly the row of the address was updated. In particular an
    [UpdateBalance] for an address that is not in the store affects no row
    and returns an error, having staged nothing: it does not silently
    succeed. [UpdateTransactions] checks no row count: an insert that is
    ignored because its index is recorded affects no row and is no error. *)
Theorem balance_update_checks_its_row_count
    (address : string) (balance : Z) (w w' : World) (staged : Tables) (r : result unit) :
  pending w = Some staged →
  data.UpdateBalance openTx address balance w = (r, w') →
  (∀ (numRows : Z) (operation : string) (w0 : World),
     numRows ≠ 1%Z → ∃ e, data.validateEffectedRows numRows operation w0 = (Err e, w0)) ∧
  store w' = store w ∧
  (r = Ok () →
   is_Some (wallet staged !! address) ∧
   pending w' = Some (mkTables (<[address := balance]> (wallet staged)) (transactions staged))) ∧
  (wallet staged !! address = None →
   (∃ e, r = Err e) ∧ pending w' = Some staged ∧
   (faults w = [] →
    r = Err (Errorf "invalid number of effected rows in %s - Expected: 1, Actual: %d"
               [ArgS "balance update"; ArgD 0]))) ∧
  (∀ (snapshot : types.AddressData),
     faults w = [] → (data.UpdateTransactions openTx snapshot w).1 = Ok ()).
Proof.
  intros Hp Hrun. split; [| split; [| split; [| split]]].
  - intros numRows operation w0 Hne. eexists. by apply validateEffectedRows_mismatch.
  - unfold data.UpdateBalance in Hrun. rewrite bind_run in Hrun.
    destruct (wrapping _ _ w) as [r1 w1] eqn:Hw.
    apply wrapped_TxExec_cases in Hw as (Hs & _ & _).
    destruct r1 as [rows | e | p |]; try (injection Hrun as <- <-; done).
    unfold data.validateEffectedRows in Hrun.
    destruct (decide (rows ≠ 1%Z)); by injection Hrun as <- <-.
  - intros ->. unfold data.UpdateBalance in Hrun.
    apply bind_Ok in Hrun as (rows & w1 & Hexec & Hcheck).
    apply wrapped_TxExec_cases in Hexec
      as (_ & _ & [(e & ? & _) | (st & rows' & t' & Hst & Hq & [= <-] & Hpe)]); [discriminate |].
    rewrite Hp in Hst. injection Hst as <-.
    unfold data.validateEffectedRows in Hcheck.
    destruct (decide (rows ≠ 1%Z)) as [| Hone]; [discriminate |].
    injection Hcheck as <-. rewrite run_updateBalance in Hq.
    destruct (wallet staged !! address) as [old |]; injection Hq as <- <-.
    + split; [eauto | done].
    + by destruct Hone.
  - intros Habsent. unfold data.UpdateBalance in Hrun. rewrite bind_run in Hrun.
    destruct (wrapping _ _ w) as [r1 w1] eqn:Hw.
    pose proof Hw as Hcases.
    apply wrapped_TxExec_cases in Hcases
      as (_ & _ & [(e & -> & Hpe) | (st & rows' & t' & Hst & Hq & -> & Hpe)]).
    + injection Hrun as <- <-. split; [eauto | split; [congruence |]].
      intros Hf. unfold wrapping in Hw.
      rewrite (TxExec_no_fault _ _ staged staged 0 Hf Hp) in Hw; [discriminate |].
      by rewrite run_updateBalance, Habsent.
    + rewrite Hp in Hst. injection Hst as <-.
      rewrite run_updateBalance, Habsent in Hq. injection Hq as <- <-.
      rewrite validateEffectedRows_mismatch in Hrun by done.
      injection Hrun as <- <-. split; [eauto | split; [done | done]].
  - intros snapshot Hf.
    destruct (updateEach_no_fault (types.Txs snapshot) (types.Address snapshot) w staged Hf Hp)
      as (w1 & Hok & _).
    unfold data.UpdateTransactions. by rewrite Hok.
Qed.

(** C6 on the sample data: the balance of an address that the store does
    not hold is updated inside a transaction. *)
Lemma balance_update_checks_its_row_count_witness :
  let staged := mkTables {[sample.genesis := 0%Z]} ∅ in
  let w := sample.inTransaction staged in
  let outcome := data.UpdateBalance openTx sample.other 9 w in
  outcome.1 = Err (Errorf "invalid number of effected rows in %s - Expected: 1, Actual: %d"
                     [ArgS "balance update"; ArgD 0]) ∧
  pending outcome.2 = Some staged ∧ store outcome.2 = store w.
Proof.
  intros staged w outcome.
  assert (pending w = Some staged) as Hp by reflexivity.
  assert (data.UpdateBalance openTx sample.other 9 w = (outcome.1, outcome.2)) as Hrun
    by (vm_compute; reflexivity).
  destruct (balance_update_checks_its_row_count sample.other 9 w outcome.2 staged outcome.1
              Hp Hrun) as (_ & Hstore & _ & Habsent & _).
  assert (wallet staged !! sample.other = None) as Hnone by (vm_compute; reflexivity).
  destruct (Habsent Hnone) as (_ & Hpending & Herror).
  split; [apply Herror; reflexivity | split; [exact Hpending | exact Hstore]].
Defined.

(** ** Adding and removing addresses *)

Lemma wrapping_cases {A : Type} (f : error → error) (c : M A) (w w' : World) (r : result A) :
  wrapping f c w = (r, w') →
  ∃ r0, c w = (r0, w') ∧ ((∀ e, r0 ≠ Err e) ∧ r = r0 ∨ ∃ e, r0 = Err e ∧ r = Err (f e)).
Proof.
  unfold wrapping. destruct (c w) as [[a | e | p |] w1]; intros [= <- <-];
    eexists; (split; [reflexivity |]); eauto.
Qed.

Lemma CheckAddress_cases (address : string) (w w' : World) (r : result bool) :
  data.CheckAddress address w = (r, w') →
  sameTables w w' ∧
  ((∃ e, r = Err e) ∨ r = Ok (bool_decide (is_Some (wallet (store w) !! address)))).
Proof.
  unfold data.CheckAddress. intros Hrun.
  apply wrapping_cases in Hrun as (r0 & Hrun & Hr).
  unfold sql.QueryExists in Hrun. rewrite bind_run in Hrun.
  destruct (driver_cases w) as (w1 & (Hs & Hp & He) & [Hd | Hd]); rewrite Hd in Hrun.
  - unfold step in Hrun. injection Hrun as <- <-. split; [done |]. right.
    destruct Hr as [[_ ->] | (e & ? & _)]; [by rewrite Hs | discriminate].
  - injection Hrun as <- <-. split; [done |]. left.
    destruct Hr as [[Hne _] | (e & _ & ->)]; [by destruct (Hne (External "database/sql")) | eauto].
Qed.

Lemma CheckAddress_no_fault (address : string) (w : World) :
  faults w = [] →
  data.CheckAddress address w = (Ok (bool_decide (is_Some (wallet (store w) !! address))), w).
Proof.
  intros Hf. unfold data.CheckAddress, wrapping, sql.QueryExists.
  by rewrite bind_run, (driver_no_fault w Hf).
Qed.

Lemma data_AddAddress_no_fault (address : string) (w : World) :
  faults w = [] → wallet (store w) !! address = None →
  data.AddAddress address w =
  (Ok (), mkWorld (mkTables (<[address := 0%Z]> (wallet (store w))) (transactions (store w)))
                  (pending w) (faults w) (events w)).
Proof.
  intros Hf Hnone. unfold data.AddAddress. rewrite bind_run.
  unfold wrapping, sql.Exec. rewrite bind_run, (driver_no_fault w Hf).
  unfold step. simpl. by rewrite Hnone.
Qed.

(** C9. [AddAddress] finds a duplicate by asking first whether the address
    exists. For an address of a valid length that the store does not hold,
    and a driver that does not fail, the first call returns
    [alreadyExists = false] and stores the address with balance 0; the second
    call with the same address returns [alreadyExists = true] and changes
    nothing. Afterwards the store holds one row for the address: one row
    more than before the first call. *)
Theorem addAddress_twice (address : string) (w : World) :
  (0 < String.length address ≤ 42)%nat →
  wallet (store w) !! address = None →
  faults w = [] →
  ∃ w1 w2,
    cointracker.AddAddress address w = (Ok false, w1) ∧
    cointracker.AddAddress address w1 = (Ok true, w2) ∧
    wallet (store w1) = <[address := 0%Z]> (wallet (store w)) ∧
    transactions (store w1) = transactions (store w) ∧
    store w2 = store w1 ∧
    wallet (store w2) !! address = Some 0%Z ∧
    size (wallet (store w2)) = S (size (wallet (store w))).
Proof.
  intros Hlen Habsent Hf.
  assert (bool_decide (String.length address = 0 ∨ 42 < String.length address)%nat = false)
    as Hvalid by (apply bool_decide_eq_false; lia).
  eexists. eexists. split; [| split].
  - unfold cointracker.AddAddress. rewrite Hvalid, bind_run, (CheckAddress_no_fault _ _ Hf).
    rewrite bool_decide_eq_false_2 by (rewrite Habsent; by intros [? ?]).
    rewrite bind_run. unfold try. rewrite (data_AddAddress_no_fault _ _ Hf Habsent).
    reflexivity.
  - unfold cointracker.AddAddress. rewrite Hvalid, bind_run.
    rewrite CheckAddress_no_fault by exact Hf.
    rewrite bool_decide_eq_true_2; [reflexivity |].
    simpl. rewrite lookup_insert_eq. eauto.
  - simpl. repeat split.
    + apply lookup_insert_eq.
    + by apply map_size_insert_None.
Qed.

(** C9 on the address of the specification's example. *)
Lemma addAddress_twice_witness :
  let w := sample.quiet (mkTables ∅ ∅) in
  let first := cointracker.AddAddress sample.genesis w in
  let second := cointracker.AddAddress sample.genesis first.2 in
  first.1 = Ok false ∧ second.1 = Ok true ∧
  wallet (store second.2) = {[sample.genesis := 0%Z]}.
Proof.
  intros w first second.
  destruct (addAddress_twice sample.genesis w) as (w1 & w2 & H1 & H2 & Hwallet & _ & Hstore & _).
  - vm_compute. split; lia.
  - reflexivity.
  - reflexivity.
  - subst first second. rewrite H1. simpl. rewrite H2. simpl.
    repeat split. rewrite Hstore, Hwallet. reflexivity.
Defined.

Lemma removed_is_clean (address : string) (t : Tables) :
  wallet (removed address t) !! address = None ∧
  ∀ i row, transactions (removed address t) !! i = Some row → row_address row ≠ address.
Proof.
  split.
  - apply lookup_delete_eq.
  - intros i row Hrow. simpl in Hrow.
    apply map_lookup_filter_Some in Hrow as [_ Hnot]. exact Hnot.
Qed.

Lemma removed_keeps_noOrphans (address : string) (t : Tables) :
  noOrphans t → noOrphans (removed address t).
Proof.
  intros Hclean i row Hrow. simpl in *.
  apply map_lookup_filter_Some in Hrow as [Hrow Hnot].
  rewrite lookup_delete_ne by (intros Heq; by apply Hnot).
  by eapply Hclean.
Qed.

Lemma run_removeAddress (t : Tables) (address : string) (rows : Z) (t' : Tables) :
  run (removeAddressQuery address) t = Some (rows, t') →
  (rows = 1%Z ∧ is_Some (wallet t !! address) ∧
   t' = mkTables (delete address (wallet t)) (transactions t)) ∨
  (rows = 0%Z ∧ wallet t !! address = None ∧ t' = t).
Proof.
  simpl. destruct (wallet t !! address) as [balance |]; intros [= <- <-]; [left | right]; eauto.
Qed.

(** The gateway's [RemoveAddress] is all or nothing, whatever the driver
    does: it returns no error and has removed the address with all its
    transactions, or it returns an error and the committed tables are as
    they were. *)
Lemma data_RemoveAddress_cases (address : string) (w w' : World) (r : result unit) :
  data.RemoveAddress address w = (r, w') →
  (r = Ok () ∧ is_Some (wallet (store w) !! address) ∧ store w' = removed address (store w)) ∨
  ((∃ e, r = Err e) ∧ store w' = store w).
Proof.
  unfold data.RemoveAddress. rewrite bind_run.
  destruct (wrapping _ sql.Begin w) as [r0 w0] eqn:Hbegin.
  apply wrapping_cases in Hbegin as (rb & Hbegin & Hrb).
  destruct rb as [tx | e | p |].
  - (* the transaction is open *)
    destruct Hrb as [[_ ->] | (e & ? & _)]; [| discriminate].
    apply Begin_Ok in Hbegin as (-> & Hs0 & Hp0 & _).
    unfold data.deferring.
    match goal with |- (let (_, _) := ?body w0 in _) = _ → _ =>
      destruct (body w0) as [rbody wbody] eqn:Hbody end.
    intros [= <- <-]. simpl.
    rewrite bind_run in Hbody.
    destruct (wrapping _ (sql.TxExec openTx (removeAddressQuery address)) w0)
      as [r1 w1] eqn:Hfirst.
    apply wrapped_TxExec_cases in Hfirst
      as (Hs1 & _ & [(e & -> & _) | (st & rows & t1 & Hst & Hq1 & -> & Hp1)]).
    { injection Hbody as <- <-. right. split; [eauto | congruence]. }
    rewrite Hp0 in Hst. injection Hst as <-.
    apply run_removeAddress in Hq1 as [(-> & Hpresent & ->) | (-> & Habsent & ->)].
    + (* one row: the address was there *)
      rewrite bind_run, validateEffectedRows_one, bind_run in Hbody.
      destruct (wrapping _ (sql.TxExec openTx (removeTxQuery address)) w1)
        as [r2 w2] eqn:Hsecond.
      apply wrapped_TxExec_cases in Hsecond
        as (Hs2 & _ & [(e & -> & _) | (st & rows & t2 & Hst & Hq2 & -> & Hp2)]).
      { injection Hbody as <- <-. right. split; [eauto | congruence]. }
      rewrite Hp1 in Hst. injection Hst as <-. injection Hq2 as <- <-.
      apply wrapping_cases in Hbody as (rc & Hcommit & Hrc).
      apply Commit_cases in Hcommit as (_ & [(e & -> & Hs3 & _) | (-> & Hp3 & _)]).
      * right. destruct Hrc as [[_ ->] | (e' & _ & ->)]; (split; [eauto | congruence]).
      * left. destruct Hrc as [[_ ->] | (e' & ? & _)]; [| discriminate].
        split; [done | split; [done |]]. rewrite Hp2 in Hp3. by injection Hp3 as <-.
    + (* no row: the check of the count fails *)
      rewrite bind_run, validateEffectedRows_mismatch in Hbody by done.
      injection Hbody as <- <-. right. split; [eauto | congruence].
  - destruct Hrb as [[Hne _] | (e' & _ & ->)]; [by destruct (Hne e) |].
    intros [= <- <-]. right. split; [eauto |].
    by apply Begin_cases in Hbegin as [? _].
  - apply Begin_cases in Hbegin as (_ & [(e & ?) | (? & _)]); discriminate.
  - apply Begin_cases in Hbegin as (_ & [(e & ?) | (? & _)]); discriminate.
Qed.

Lemma data_RemoveAddress_no_fault (address : string) (w : World) :
  faults w = [] → is_Some (wallet (store w) !! address) →
  data.RemoveAddress address w =
  (Ok (), mkWorld (removed address (store w)) None [] (events w)).
Proof.
  destruct w as [t staged fs ev]. simpl. intros -> [balance Hpresent].
  unfold data.RemoveAddress, data.deferring, wrapping, sql.Begin, sql.TxExec, sql.Commit,
    sql.Rollback, step.
  rewrite !bind_run. simpl. rewrite !bind_run. simpl. by rewrite Hpresent.
Qed.

(** C10. [RemoveAddress] on an address that the store does not hold returns
    [existed = false] (the runner's NotFound) and changes nothing. On an
    address that the store holds it removes the row of the address and all
    transactions of the address as one unit: whatever the driver does, the
    committed tables after the call are the ones before it, with an error
    returned, or the ones with the address and every one of its transactions
    gone. So no call leaves the address removed and a transaction of it
    behind, and a store in which every transaction belongs to a stored
    address stays such a store. With a driver that does not fail the removal
    takes place and [existed = true] is returned. *)
Theorem removeAddress_all_or_nothing (address : string) (w w' : World) (r : result bool) :
  cointracker.RemoveAddress address w = (r, w') →
  (wallet (store w) !! address = None →
   store w' = store w ∧ ((∃ e, r = Err e) ∨ r = Ok false) ∧ (faults w = [] → r = Ok false)) ∧
  (is_Some (wallet (store w) !! address) →
   ((r = Ok true ∧ store w' = removed address (store w)) ∨
    ((∃ e, r = Err e) ∧ store w' = store w)) ∧
   (faults w = [] → r = Ok true ∧ store w' = removed address (store w))) ∧
  (wallet (removed address (store w)) !! address = None ∧
   ∀ i row, transactions (removed address (store w)) !! i = Some row →
            row_address row ≠ address) ∧
  (noOrphans (store w) → noOrphans (store w')).
Proof.
  intros Hrun. split; [| split; [| split; [apply removed_is_clean |]]]; cycle 2.
  { intros Hclean.
    assert (store w' = store w ∨ store w' = removed address (store w)) as [-> | ->];
      [| done | by apply removed_keeps_noOrphans].
    unfold cointracker.RemoveAddress in Hrun. rewrite bind_run in Hrun.
    destruct (data.CheckAddress address w) as [r0 w0] eqn:Hcheck.
    apply CheckAddress_cases in Hcheck as ((Hs & _ & _) & [(e & ->) | ->]).
    - injection Hrun as <- <-. by left.
    - destruct (bool_decide (is_Some (wallet (store w) !! address))).
      + rewrite bind_run in Hrun.
        destruct (data.RemoveAddress address w0) as [r1 w1] eqn:Hremove.
        apply data_RemoveAddress_cases in Hremove
          as [(-> & _ & Hs1) | ((e & ->) & Hs1)]; injection Hrun as <- <-.
        * right. congruence.
        * left. congruence.
      + injection Hrun as <- <-. by left. }
  - intros Habsent. unfold cointracker.RemoveAddress in Hrun. rewrite bind_run in Hrun.
    destruct (data.CheckAddress address w) as [r0 w0] eqn:Hcheck.
    pose proof (CheckAddress_no_fault address w) as Hquiet. rewrite Hcheck in Hquiet.
    apply CheckAddress_cases in Hcheck as ((Hs & _ & _) & [(e & ->) | ->]).
    + injection Hrun as <- <-. split; [done |]. split; [eauto |].
      intros Hf. by specialize (Hquiet Hf).
    + rewrite bool_decide_eq_false_2 in Hrun by (rewrite Habsent; by intros [? ?]).
      injection Hrun as <- <-. split; [done |]. split; [by right | done].
  - intros Hpresent. split.
    + unfold cointracker.RemoveAddress in Hrun. rewrite bind_run in Hrun.
      destruct (data.CheckAddress address w) as [r0 w0] eqn:Hcheck.
      apply CheckAddress_cases in Hcheck as ((Hs & _ & _) & [(e & ->) | ->]).
      * injection Hrun as <- <-. right. split; [eauto | done].
      * rewrite bool_decide_eq_true_2, bind_run in Hrun by done.
        destruct (data.RemoveAddress address w0) as [r1 w1] eqn:Hremove.
        apply data_RemoveAddress_cases in Hremove
          as [(-> & _ & Hs1) | ((e & ->) & Hs1)]; injection Hrun as <- <-.
        -- left. split; [done | congruence].
        -- right. split; [eauto | congruence].
    + intros Hf. unfold cointracker.RemoveAddress in Hrun.
      rewrite bind_run, (CheckAddress_no_fault _ _ Hf) in Hrun.
      rewrite bool_decide_eq_true_2, bind_run in Hrun by done.
      rewrite (data_RemoveAddress_no_fault _ _ Hf Hpresent) in Hrun.
      by injection Hrun as <- <-.
Qed.

(** C10 on the sample data: the genesis address is removed from a store that
    holds it with a transaction, next to another address with one. *)
Lemma removeAddress_all_or_nothing_witness :
  let t := mkTables {[sample.genesis := 5%Z; sample.other := 9%Z]}
                    {[7%Z := mkTxRow "h7" sample.genesis "seven";
                      8%Z := mkTxRow "h8" sample.other "eight"]} in
  let outcome := cointracker.RemoveAddress sample.genesis (sample.quiet t) in
  let again := cointracker.RemoveAddress sample.genesis outcome.2 in
  outcome.1 = Ok true ∧
  store outcome.2 = mkTables {[sample.other := 9%Z]} {[8%Z := mkTxRow "h8" sample.other "eight"]} ∧
  again.1 = Ok false ∧ store again.2 = store outcome.2.
Proof.
  intros t outcome again.
  assert (cointracker.RemoveAddress sample.genesis (sample.quiet t) = (outcome.1, outcome.2))
    as Hfirst by (vm_compute; reflexivity).
  assert (cointracker.RemoveAddress sample.genesis outcome.2 = (again.1, again.2))
    as Hsecond by (vm_compute; reflexivity).
  destruct (removeAddress_all_or_nothing _ _ _ _ Hfirst) as (_ & Hpresent & _).
  destruct (removeAddress_all_or_nothing _ _ _ _ Hsecond) as (Habsent & _ & _).
  assert (is_Some (wallet (store (sample.quiet t)) !! sample.genesis)) as Hheld
    by (vm_compute; eauto).
  assert (wallet (store outcome.2) !! sample.genesis = None) as Hgone
    by (vm_compute; reflexivity).
  destruct (Hpresent Hheld) as [_ Hquiet]. destruct (Hquiet eq_refl) as [Hr1 Hs1].
  destruct (Habsent Hgone) as (Hs2 & _ & Hr2).
  split; [exact Hr1 |]. split; [rewrite Hs1; vm_compute; reflexivity |].
  split; [apply Hr2; vm_compute; reflexivity | exact Hs2].
Defined.

(** ** Pagination *)

Lemma orb_true_iff_bool (P Q : Prop) `{Decision P, Decision Q} :
  P ∨ Q → bool_decide P || bool_decide Q = true.
Proof.
  intros [HP | HQ].
  - by rewrite (bool_decide_eq_true_2 P).
  - rewrite (bool_decide_eq_true_2 Q) by done. apply orb_true_r.
Qed.

Lemma orb_false_iff_bool (P Q : Prop) `{Decision P, Decision Q} :
  ¬ P ∧ ¬ Q → bool_decide P || bool_decide Q = false.
Proof.
  intros [HP HQ]. by rewrite (bool_decide_eq_false_2 P), (bool_decide_eq_false_2 Q).
Qed.

Lemma wrap64_small (z : Z) : (- 2 ^ 63 ≤ z < 2 ^ 63)%Z → wrap64 z = z.
Proof.
  intros Hz. unfold wrap64.
  rewrite Z.mod_small by lia. lia.
Qed.

Lemma emit_run (e : event) (w : World) : emit e w = (Ok (), logged w [e]).
Proof. reflexivity. Qed.

Lemma logged_logged (w : World) (a b : list event) :
  logged (logged w a) b = logged w (a ++ b).
Proof. unfold logged. simpl. by rewrite <- app_assoc. Qed.

Lemma normalize_Some (rawTx : types.RawMessage) (t : types.Transaction) :
  normalize rawTx = Some t →
  ∃ txMap tx_index hash,
    json.Unmarshal rawTx = inr txMap ∧
    json.index txMap "tx_index" = types.JNumber tx_index ∧
    json.index txMap "hash" = types.JString hash ∧
    t = types.mkTransaction (int64_of_float64 tx_index) hash (types.bytes rawTx).
Proof.
  unfold normalize. destruct (json.Unmarshal rawTx) as [e | txMap]; [discriminate |].
  destruct (json.index txMap "tx_index") as [| | tx_index | | |] eqn:Hindex; try discriminate.
  destruct (json.index txMap "hash") as [| | | hash | |] eqn:Hhash; try discriminate.
  intros [= <-]. by exists txMap, tx_index, hash.
Qed.

(** Well-formed records are appended one for one, with no event and no
    change of the world. *)
Lemma appendTransactions_wellFormed (rawTxs : list types.RawMessage)
    (allTxs : list types.Transaction) (w : World) :
  Forall (λ rawTx, is_Some (normalize rawTx)) rawTxs →
  cointracker.appendTransactions rawTxs allTxs w = (Ok (allTxs ++ omap normalize rawTxs), w).
Proof.
  intros Hall. revert allTxs. induction Hall as [| rawTx rest [t Ht] _ IH]; intros allTxs.
  - simpl. by rewrite app_nil_r.
  - simpl. rewrite Ht.
    apply normalize_Some in Ht as (txMap & tx_index & hash & -> & Hindex & Hhash & ->).
    rewrite bind_run, Hindex. simpl. rewrite bind_run, Hhash. simpl.
    rewrite IH. by rewrite <- app_assoc.
Qed.

Section Pages.

Variable api : http.Api.
Variable address : string.

(** One turn of the loop on a well-formed page. *)
Lemma fetchPages_turn (fuel : nat) (offset : Z) (data : option types.AddressData)
    (allTxs : list types.Transaction) (response : types.RawAddressResponse) (w : World) :
  api address cointracker.limit offset = http.Response 200 (http.Decoded response) →
  wellFormed response →
  cointracker.fetchPages api (S fuel) address offset data allTxs w =
  if bool_decide (Z.of_nat (length (types.RawTxs response)) < cointracker.limit)%Z
     || bool_decide (types.NTx response ≤ wrap64 (offset + cointracker.limit))%Z
  then (Ok (withTxs (headerOf data response)
                    (allTxs ++ omap normalize (types.RawTxs response))),
        logged w [HttpGet address cointracker.limit offset])
  else cointracker.fetchPages api fuel address (wrap64 (offset + cointracker.limit))
         (Some (headerOf data response))
         (allTxs ++ omap normalize (types.RawTxs response))
         (logged w [HttpGet address cointracker.limit offset; Sleep 15]).
Proof.
  intros Hreply Hwell. simpl. rewrite bind_run, emit_run, Hreply.
  rewrite decide_False by (intros Hne; by apply Hne).
  rewrite bind_run, (appendTransactions_wellFormed _ _ _ Hwell).
  destruct (bool_decide _ || bool_decide _).
  - reflexivity.
  - rewrite bind_run. unfold sleep. by rewrite emit_run, logged_logged.
Qed.

Lemma next_offset (j : nat) :
  (cointracker.limit * (Z.of_nat j + 1) < 2 ^ 63)%Z →
  wrap64 (cointracker.limit * Z.of_nat j + cointracker.limit) =
  (cointracker.limit * Z.of_nat (S j))%Z.
Proof. unfold cointracker.limit. intros Hbound. rewrite wrap64_small; lia. Qed.

Lemma goesOn_test (response : types.RawAddressResponse) (j : nat) :
  goesOn response j →
  bool_decide (Z.of_nat (length (types.RawTxs response)) < cointracker.limit)%Z
  || bool_decide (types.NTx response ≤ cointracker.limit * Z.of_nat (S j))%Z = false.
Proof. intros [Hfull Hmore]. apply orb_false_iff_bool. split; [done | lia]. Qed.

Lemma stops_test (response : types.RawAddressResponse) (j : nat) :
  stops response j →
  bool_decide (Z.of_nat (length (types.RawTxs response)) < cointracker.limit)%Z
  || bool_decide (types.NTx response ≤ cointracker.limit * Z.of_nat (S j))%Z = true.
Proof. intros Hstops. apply orb_true_iff_bool. destruct Hstops; [by left | right; lia]. Qed.

Lemma pageEvents_next (j n : nat) :
  pageEvents address (pageOffsets j (S (S n))) =
  [HttpGet address cointracker.limit (cointracker.limit * Z.of_nat j)%Z; Sleep 15]
  ++ pageEvents address (pageOffsets (S j) (S n)).
Proof. reflexivity. Qed.

(** The loop from page [j] on, over pages after which it goes on and a page
    after which it stops. *)
Lemma fetchPages_pages (replies : list types.RawAddressResponse) :
  ∀ (last : types.RawAddressResponse) (j : nat) (data : option types.AddressData)
    (allTxs : list types.Transaction) (fuel : nat) (w : World),
    (∀ i reply, replies !! i = Some reply →
       api address cointracker.limit (cointracker.limit * Z.of_nat (j + i))%Z =
         http.Response 200 (http.Decoded reply) ∧
       wellFormed reply ∧ goesOn reply (j + i)) →
    api address cointracker.limit (cointracker.limit * Z.of_nat (j + length replies))%Z =
      http.Response 200 (http.Decoded last) →
    wellFormed last →
    stops last (j + length replies) →
    (cointracker.limit * (Z.of_nat (j + length replies) + 1) < 2 ^ 63)%Z →
    (length replies < fuel)%nat →
    cointracker.fetchPages api fuel address (cointracker.limit * Z.of_nat j)%Z data allTxs w =
    (Ok (withTxs (headerOf data (hd last replies))
           (allTxs ++ omap normalize (concat (types.RawTxs <$> (replies ++ [last]))))),
     logged w (pageEvents address (pageOffsets j (S (length replies))))).
Proof.
  induction replies as [| reply replies IH]; intros last j data allTxs fuel w Hpages Hlast Hwell
    Hstops Hbound Hfuel.
  - destruct fuel as [| fuel]; [simpl in Hfuel; lia |].
    simpl length in *. rewrite Nat.add_0_r in *.
    rewrite (fetchPages_turn fuel _ data allTxs last w Hlast Hwell).
    rewrite next_offset, stops_test by done.
    change (hd last []) with last.
    change (concat (types.RawTxs <$> [] ++ [last])) with (types.RawTxs last ++ []).
    by rewrite app_nil_r.
  - destruct fuel as [| fuel]; [simpl in Hfuel; lia |].
    destruct (Hpages 0%nat reply eq_refl) as (Hreply & Hwellr & Hgoes).
    simpl length in *. rewrite Nat.add_0_r in *.
    assert (cointracker.limit * (Z.of_nat j + 1) < 2 ^ 63)%Z as Hnext
      by (unfold cointracker.limit in *; lia).
    rewrite (fetchPages_turn fuel _ data allTxs reply w Hreply Hwellr).
    rewrite next_offset, goesOn_test, pageEvents_next by done.
    rewrite (IH last (S j)); try done.
    + rewrite logged_logged.
      change (hd last (reply :: replies)) with reply.
      change (concat (types.RawTxs <$> (reply :: replies) ++ [last]))
        with (types.RawTxs reply ++ concat (types.RawTxs <$> replies ++ [last])).
      rewrite omap_app, app_assoc. reflexivity.
    + intros i r Hr. replace (S j + i)%nat with (j + S i)%nat by lia. by apply Hpages.
    + by replace (S j + length replies)%nat with (j + S (length replies))%nat by lia.
    + by replace (S j + length replies)%nat with (j + S (length replies))%nat by lia.
    + by replace (S j + length replies)%nat with (j + S (length replies))%nat by lia.
    + lia.
Qed.

End Pages.

(** C4. Pagination in [fetchAddressData] starts at offset 0, moves the
    offset on by the page size (50) after each page, and stops as soon as a
    page has fewer records than the page size or the offset has reached the
    count the page reports. Let the source answer the requests at offsets 0,
    50, ... with well-formed pages, of which first come pages after which
    the loop goes on (full, and the next offset below the reported count),
    and then a page after which it stops (short, whatever the count says, or
    the next offset at or over the count). Then, with fuel for these pages,
    [fetchAddressData] returns the transactions of exactly these pages in
    order, under the address, balance and count of the first response, and
    its requests are the ones at these offsets, each after a pause of 15
    seconds except the first: no page more, and none less. *)
Theorem pagination_stops_at_short_page_or_count
    (api : http.Api) (address : string) (replies : list types.RawAddressResponse)
    (last : types.RawAddressResponse) (fuel : nat) (w : World) :
  (∀ i reply, replies !! i = Some reply →
     api address cointracker.limit (cointracker.limit * Z.of_nat i)%Z =
       http.Response 200 (http.Decoded reply) ∧
     wellFormed reply ∧ goesOn reply i) →
  api address cointracker.limit (cointracker.limit * Z.of_nat (length replies))%Z =
    http.Response 200 (http.Decoded last) →
  wellFormed last →
  stops last (length replies) →
  (cointracker.limit * (Z.of_nat (length replies) + 1) < 2 ^ 63)%Z →
  (length replies < fuel)%nat →
  cointracker.fetchAddressData api fuel address w =
  (Ok (withTxs (headerOf None (hd last replies))
         (omap normalize (concat (types.RawTxs <$> (replies ++ [last]))))),
   logged w (pageEvents address (pageOffsets 0 (S (length replies))))).
Proof.
  intros Hpages Hlast Hwell Hstops Hbound Hfuel.
  unfold cointracker.fetchAddressData.
  change 0%Z with (cointracker.limit * Z.of_nat 0)%Z.
  by rewrite (fetchPages_pages api address replies last 0 None [] fuel w).
Qed.

Lemma wellFormed_sample (held reported balance : Z) (address : string) (limit offset : Z) :
  wellFormed (sample.response held reported balance address limit offset).
Proof.
  unfold wellFormed, sample.response, sample.page. simpl.
  apply Forall_fmap, Forall_forall. intros k _. simpl. eauto.
Qed.

(** C4 on the source of the specification: 120 records, pages of 50. Three
    pages are fetched, of 50, 50 and 20 records, at offsets 0, 50 and 100.
    And on a source that reports 1000 records but serves 7: the short first
    page ends the pagination. *)
Lemma pagination_stops_at_short_page_or_count_witness :
  let w := sample.quiet (mkTables ∅ ∅) in
  let full := cointracker.fetchAddressData (sample.explorer 120 120 77) 3 sample.genesis w in
  let short := cointracker.fetchAddressData (sample.explorer 7 1000 77) 1 sample.genesis w in
  events full.2 = [HttpGet sample.genesis 50 0; Sleep 15;
                   HttpGet sample.genesis 50 50; Sleep 15;
                   HttpGet sample.genesis 50 100] ∧
  (λ offset, length (sample.page 120 50 offset)) <$> [0; 50; 100]%Z = [50; 50; 20]%nat ∧
  indicesOf full.1 = Some (Z.of_nat <$> seq 0 120) ∧
  events short.2 = [HttpGet sample.genesis 50 0] ∧
  indicesOf short.1 = Some (Z.of_nat <$> seq 0 7).
Proof.
  intros w full short.
  pose (reply := sample.response 120 120 77 sample.genesis 50).
  opose proof (pagination_stops_at_short_page_or_count (sample.explorer 120 120 77)
                 sample.genesis [reply 0%Z; reply 50%Z] (reply 100%Z) 3 w _ _ _ _ _ _) as Hfull.
  { intros [| [| i]] r; simpl; intros [= <-];
      (split; [reflexivity | split; [apply wellFormed_sample |]]);
      split; vm_compute; congruence. }
  { reflexivity. }
  { apply wellFormed_sample. }
  { left. vm_compute. reflexivity. }
  { vm_compute. reflexivity. }
  { simpl. lia. }
  opose proof (pagination_stops_at_short_page_or_count (sample.explorer 7 1000 77)
                 sample.genesis [] (sample.response 7 1000 77 sample.genesis 50 0) 1 w
                 _ _ _ _ _ _) as Hshort.
  { intros i r Hr. by rewrite lookup_nil in Hr. }
  { reflexivity. }
  { apply wellFormed_sample. }
  { left. vm_compute. reflexivity. }
  { vm_compute. reflexivity. }
  { simpl. lia. }
  subst full short. rewrite Hfull, Hshort.
  repeat split; vm_compute; reflexivity.
Defined.

(** ** The sync pass *)

Lemma keepsTables_bind {A B : Type} (c : M A) (f : A → M B) :
  keepsTables c → (∀ a, keepsTables (f a)) → keepsTables (c ≫= f).
Proof.
  intros Hc Hf w. rewrite bind_run. specialize (Hc w).
  destruct (c w) as [[a | e | p |] w1]; simpl in *; destruct Hc as [Hs Hp]; try done.
  destruct (Hf a w1) as [? ?]. split; congruence.
Qed.

Lemma keepsTables_ret {A : Type} (a : A) : keepsTables (mret a : M A).
Proof. by intros w. Qed.

Lemma keepsTables_fail {A : Type} (e : error) : keepsTables (fail e : M A).
Proof. by intros w. Qed.

Lemma keepsTables_throw {A : Type} (p : panic) : keepsTables (throw p : M A).
Proof. by intros w. Qed.

Lemma keepsTables_emit (e : event) : keepsTables (emit e).
Proof. by intros w. Qed.

Lemma keepsTables_try {A : Type} (c : M A) : keepsTables c → keepsTables (try c).
Proof.
  intros Hc w. unfold try. specialize (Hc w). by destruct (c w) as [[a | e | p |] w1].
Qed.

Lemma keepsTables_wrapping {A : Type} (f : error → error) (c : M A) :
  keepsTables c → keepsTables (wrapping f c).
Proof. intros Hc w. rewrite wrapping_world. apply Hc. Qed.

Lemma keepsTables_driver : keepsTables sql.driver.
Proof. intros w. unfold sql.driver. by destruct (faults w) as [| [] rest]. Qed.

Lemma keepsTables_assertFloat64 (field : string) (v : types.any) :
  keepsTables (json.assertFloat64 field v).
Proof. by destruct v. Qed.

Lemma keepsTables_assertString (field : string) (v : types.any) :
  keepsTables (json.assertString field v).
Proof. by destruct v. Qed.

Create HintDb tables.

#[local] Hint Resolve keepsTables_ret keepsTables_fail keepsTables_throw keepsTables_emit
  keepsTables_try keepsTables_wrapping keepsTables_driver keepsTables_assertFloat64
  keepsTables_assertString : tables.

#[local] Ltac keeps :=
  repeat first
    [ progress auto with tables
    | apply keepsTables_bind; [| intros ?]
    | unfold log, sleep ].

Lemma keepsTables_appendTransactions (rawTxs : list types.RawMessage)
    (allTxs : list types.Transaction) :
  keepsTables (cointracker.appendTransactions rawTxs allTxs).
Proof.
  revert allTxs. induction rawTxs as [| rawTx rest IH]; intros allTxs; simpl.
  - keeps.
  - destruct (json.Unmarshal rawTx) as [err | txMap]; keeps.
Qed.

Lemma keepsTables_fetchPages (api : http.Api) (fuel : nat) (address : string) (offset : Z)
    (data : option types.AddressData) (allTxs : list types.Transaction) :
  keepsTables (cointracker.fetchPages api fuel address offset data allTxs).
Proof.
  revert offset data allTxs. induction fuel as [| fuel IH]; intros offset data allTxs; simpl.
  - by intros w.
  - apply keepsTables_bind; [keeps | intros _].
    destruct (api address cointracker.limit offset) as [| StatusCode body]; [keeps |].
    destruct (decide (StatusCode ≠ http.StatusOK)); [keeps |].
    destruct body as [| | response]; [keeps | keeps |].
    apply keepsTables_bind; [apply keepsTables_appendTransactions | intros txs].
    destruct (bool_decide _ || bool_decide _); keeps.
Qed.

Lemma keepsTables_fetchEach (api : http.Api) (fuel : nat) (addresses : list string)
    (results : list (option types.AddressData)) :
  keepsTables (cointracker.fetchEach api fuel addresses results).
Proof.
  revert results. induction addresses as [| address rest IH]; intros results; simpl.
  - keeps.
  - apply keepsTables_bind.
    { apply keepsTables_try, keepsTables_fetchPages. }
    intros [data | err]; keeps.
Qed.

Lemma keepsTables_collectResults (api : http.Api) (fuel : nat) :
  keepsTables (cointracker.collectResults api fuel).
Proof.
  unfold cointracker.collectResults, data.GetAllAddresses, sql.QueryAddresses.
  apply keepsTables_bind.
  - apply keepsTables_try, keepsTables_wrapping, keepsTables_bind; [keeps | by intros _ w].
  - intros [addresses | err]; (apply keepsTables_bind; [keeps | intros ?]).
    + apply keepsTables_fetchEach.
    + apply keepsTables_fetchEach.
Qed.

(** What [GetAllAddresses] returns is the addresses of the wallet in some
    order, and the call leaves the tables and the events as they were. *)
Lemma GetAllAddresses_Ok (w w' : World) (addresses : list string) :
  data.GetAllAddresses w = (Ok addresses, w') →
  addresses ≡ₚ (map_to_list (wallet (store w))).*1 ∧ sameTables w w'.
Proof.
  unfold data.GetAllAddresses. intros Hrun.
  apply wrapping_Ok in Hrun. unfold sql.QueryAddresses in Hrun.
  apply bind_Ok in Hrun as ([] & w1 & Hdriver & Hrun).
  destruct (driver_cases w) as (w2 & Hsame & [Hok | Herr]); [| congruence].
  rewrite Hdriver in Hok. injection Hok as <-.
  unfold step in Hrun. injection Hrun as <- <-.
  destruct Hsame as (Hs & Hp & He). rewrite Hs.
  split; [apply merge_sort_Permutation | done].
Qed.

(** The first loop only appends: what it returns is the slice it was given,
    followed by the data of the addresses that were fetched. *)
Lemma fetchEach_appends (api : http.Api) (fuel : nat) (addresses : list string) :
  ∀ (results results' : list (option types.AddressData)) (w w' : World),
    cointracker.fetchEach api fuel addresses results w = (Ok results', w') →
    ∃ fetched, results' = results ++ (Some <$> fetched) ∧
               (length fetched ≤ length addresses)%nat.
Proof.
  induction addresses as [| address rest IH]; intros results results' w w'; simpl.
  - intros [= <- <-]. exists []. by rewrite app_nil_r.
  - intros Hrun.
    apply bind_Ok in Hrun as (fetched & w1 & _ & Hrun).
    apply bind_Ok in Hrun as (results1 & w2 & Hstep & Hrun).
    apply bind_Ok in Hrun as ([] & w3 & _ & Hrun).
    apply IH in Hrun as (more & -> & Hlen).
    destruct fetched as [data | err].
    + injection Hstep as <- <-. exists (data :: more).
      rewrite <- app_assoc. split; [done | simpl; lia].
    + apply bind_Ok in Hstep as ([] & w4 & _ & [= <- <-]).
      exists more. split; [done | simpl; lia].
Qed.

Lemma commitEach_nil_entry (tx : Tx) (rest : list (option types.AddressData)) (w : World) :
  cointracker.commitEach tx (None :: rest) w = (Panic NilPointerDereference, w).
Proof. reflexivity. Qed.

(** The commit phase on a slice that starts with a nil entry: the first turn
    of the second loop dereferences it, before any write. *)
Lemma commitResults_nil_entry (rest : list (option types.AddressData)) (w : World) :
  (cointracker.commitResults (None :: rest) w).1 = Panic NilPointerDereference ∧
  store (cointracker.commitResults (None :: rest) w).2 = store w.
Proof.
  unfold cointracker.commitResults. rewrite bind_run. unfold try, data.StartTransaction.
  destruct (wrapping _ sql.Begin w) as [r0 w0] eqn:Hbegin.
  apply wrapping_cases in Hbegin as (rb & Hbegin & Hrb).
  apply Begin_cases in Hbegin as (Hs & [(e & ->) | (-> & _)]).
  - destruct Hrb as [[Hne _] | (e' & _ & ->)]; [by destruct (Hne e) |].
    rewrite !bind_run. simpl. done.
  - destruct Hrb as [[_ ->] | (e' & ? & _)]; [| discriminate].
    rewrite !bind_run. simpl. done.
Qed.



(** ** What a computation adds to the events *)

Section Appends.

Variable kind : event → Prop.

Lemma appends_bind {A B : Type} (c : M A) (f : A → M B) :
  appends kind c → (∀ a, appends kind (f a)) → appends kind (c ≫= f).
Proof.
  intros Hc Hf w. rewrite bind_run. destruct (Hc w) as (more & Hev & Hkind).
  destruct (c w) as [[a | e | p |] w1]; simpl in *; try by exists more.
  destruct (Hf a w1) as (more' & Hev' & Hkind').
  exists (more ++ more'). rewrite Hev', Hev, app_assoc. split; [done |].
  by apply Forall_app.
Qed.

Lemma appends_ret {A : Type} (a : A) : appends kind (mret a : M A).
Proof. intros w. exists []. by rewrite app_nil_r. Qed.

Lemma appends_fail {A : Type} (e : error) : appends kind (fail e : M A).
Proof. intros w. exists []. by rewrite app_nil_r. Qed.

Lemma appends_throw {A : Type} (p : panic) : appends kind (throw p : M A).
Proof. intros w. exists []. by rewrite app_nil_r. Qed.

Lemma appends_emit (e : event) : kind e → appends kind (emit e).
Proof. intros He w. exists [e]. split; [done | by constructor]. Qed.

Lemma appends_try {A : Type} (c : M A) : appends kind c → appends kind (try c).
Proof.
  intros Hc w. unfold try. destruct (Hc w) as (more & Hev & Hkind).
  exists more. by destruct (c w) as [[a | e | p |] w1].
Qed.

(** The fetch of an address adds log lines, requests for that address and
    pauses of 15 seconds, and nothing else. *)
Variable address : string.
Hypothesis kind_LogLine : ∀ line, kind (LogLine line).
Hypothesis kind_HttpGet : ∀ limit offset, kind (HttpGet address limit offset).
Hypothesis kind_Sleep : kind (Sleep 15).

Lemma appends_appendTransactions (rawTxs : list types.RawMessage)
    (allTxs : list types.Transaction) :
  appends kind (cointracker.appendTransactions rawTxs allTxs).
Proof using kind_LogLine.
  revert allTxs. induction rawTxs as [| rawTx rest IH]; intros allTxs; simpl.
  - apply appends_ret.
  - destruct (json.Unmarshal rawTx) as [err | txMap].
    + apply appends_bind; [by apply appends_emit | intros _; apply appends_fail].
    + apply appends_bind; [| intros tx_index; apply appends_bind; [| intros hash; apply IH]].
      * destruct (json.index txMap "tx_index"); (apply appends_ret || apply appends_throw).
      * destruct (json.index txMap "hash"); (apply appends_ret || apply appends_throw).
Qed.

Lemma appends_fetchPages (api : http.Api) (fuel : nat) (offset : Z)
    (data : option types.AddressData) (allTxs : list types.Transaction) :
  appends kind (cointracker.fetchPages api fuel address offset data allTxs).
Proof using kind_LogLine kind_HttpGet kind_Sleep.
  revert offset data allTxs. induction fuel as [| fuel IH]; intros offset data allTxs; simpl.
  - intros w. exists []. by rewrite app_nil_r.
  - apply appends_bind; [by apply appends_emit | intros _].
    destruct (api address cointracker.limit offset) as [| StatusCode body].
    { apply appends_bind; [by apply appends_emit | intros _; apply appends_fail]. }
    destruct (decide (StatusCode ≠ http.StatusOK)).
    { apply appends_bind; [by apply appends_emit | intros _; apply appends_fail]. }
    destruct body as [| | response].
    { apply appends_bind; [by apply appends_emit | intros _; apply appends_fail]. }
    { apply appends_bind; [by apply appends_emit | intros _; apply appends_fail]. }
    apply appends_bind; [apply appends_appendTransactions | intros txs].
    destruct (bool_decide _ || bool_decide _); [apply appends_ret |].
    apply appends_bind; [by apply appends_emit | intros _; apply IH].
Qed.

End Appends.

(** What returns is a value for the caller that tests [err]. *)
Lemma try_returns {A : Type} (c : M A) (w : World) :
  returns c → ∃ outcome w', try c w = (Ok outcome, w').
Proof.
  intros Hc. unfold try. specialize (Hc w).
  destruct (c w) as [[a | e | p |] w1]; simpl in *; try done; eauto.
Qed.

(** ** Malformed records *)

(** A record that decodes to a map but lacks a number under [tx_index] or a
    string under [hash], after records that are well formed: the type
    assertion on it panics. *)
Lemma appendTransactions_malformed (before rest : list types.RawMessage)
    (rawTx : types.RawMessage) (txMap : list (string * types.any)) :
  Forall (λ r, is_Some (normalize r)) before →
  json.Unmarshal rawTx = inr txMap →
  (∀ f, json.index txMap "tx_index" ≠ types.JNumber f) ∨
  (∀ s, json.index txMap "hash" ≠ types.JString s) →
  ∃ field, ∀ allTxs w,
    cointracker.appendTransactions (before ++ rawTx :: rest) allTxs w =
    (Panic (InterfaceConversion field), w).
Proof.
  intros Hbefore Hmap Hbad. induction Hbefore as [| good before [t Ht] _ (field & IH)].
  - destruct (json.index txMap "tx_index") as [| | f | | |] eqn:Hindex.
    1, 2, 4, 5, 6: exists "tx_index"; intros allTxs w; simpl;
      by rewrite Hmap, bind_run, Hindex.
    destruct (json.index txMap "hash") as [| | | s | |] eqn:Hhash.
    4: { destruct Hbad as [Hbad | Hbad]; [by destruct (Hbad f) | by destruct (Hbad s)]. }
    all: exists "hash"; intros allTxs w; simpl;
      rewrite Hmap, bind_run, Hindex; simpl; by rewrite bind_run, Hhash.
  - exists field. intros allTxs w. simpl.
    apply normalize_Some in Ht as (goodMap & tx_index & hash & -> & Hindex & Hhash & ->).
    rewrite bind_run, Hindex. simpl. rewrite bind_run, Hhash. simpl. apply IH.
Qed.

(** C2, as the code has it. A raw record of the first page that decodes to a
    map but has no number under [tx_index], or no string under [hash] (the
    field is absent, or of another type), makes [fetchAddressData] panic at
    the type assertion on that field: no error is returned, and no
    [AddressData] either. *)
Theorem malformed_record_panics
    (api : http.Api) (fuel : nat) (address : string) (w : World)
    (response : types.RawAddressResponse) (before rest : list types.RawMessage)
    (rawTx : types.RawMessage) (txMap : list (string * types.any)) :
  api address cointracker.limit 0%Z = http.Response 200 (http.Decoded response) →
  types.RawTxs response = before ++ rawTx :: rest →
  Forall (λ r, is_Some (normalize r)) before →
  json.Unmarshal rawTx = inr txMap →
  (∀ f, json.index txMap "tx_index" ≠ types.JNumber f) ∨
  (∀ s, json.index txMap "hash" ≠ types.JString s) →
  ∃ field,
    cointracker.fetchAddressData api (S fuel) address w =
    (Panic (InterfaceConversion field), logged w [HttpGet address cointracker.limit 0]).
Proof.
  intros Hreply Hrecords Hbefore Hmap Hbad.
  destruct (appendTransactions_malformed before rest rawTx txMap Hbefore Hmap Hbad)
    as (field & Hpanic).
  exists field. unfold cointracker.fetchAddressData. simpl.
  rewrite bind_run, emit_run, Hreply.
  rewrite decide_False by (intros Hne; by apply Hne).
  by rewrite bind_run, Hrecords, Hpanic.
Qed.

(** C2 on a record that lacks its ordinal. *)
Lemma malformed_record_panics_witness :
  ∃ field,
    cointracker.fetchAddressData sample.malformedForGenesis 1 sample.genesis
      (sample.quiet sample.twoAddresses) =
    (Panic (InterfaceConversion field),
     logged (sample.quiet sample.twoAddresses) [HttpGet sample.genesis cointracker.limit 0]).
Proof.
  apply (malformed_record_panics sample.malformedForGenesis 0 sample.genesis
           (sample.quiet sample.twoAddresses)
           (types.mkRawAddressResponse "" sample.genesis 2 0 0 0 77
              [sample.recordWithoutOrdinal; sample.record 1])
           [] [sample.record 1] sample.recordWithoutOrdinal
           [("hash", types.JString "h0")]).
  - reflexivity.
  - reflexivity.
  - constructor.
  - reflexivity.
  - left. intros f. vm_compute. discriminate.
Defined.

Lemma fetchEach_cons (api : http.Api) (fuel : nat) (address : string) (rest : list string)
    (results : list (option types.AddressData)) :
  cointracker.fetchEach api fuel (address :: rest) results =
  (fetched ← try (cointracker.fetchAddressData api fuel address);
   results ← match fetched with
             | inr _ => log "Bad fetch for address: %s with error %s" ;; mret results
             | inl data => mret (results ++ [Some data])
             end;
   sleep 30 ;;
   cointracker.fetchEach api fuel rest results).
Proof. reflexivity. Qed.

Lemma asksOnly_mono (addresses addresses' : list string) (e : event) :
  addresses ⊆ addresses' → asksOnly addresses e → asksOnly addresses' e.
Proof. intros Hsub He address limit offset Heq. eapply Hsub, He, Heq. Qed.

(** The first loop at an address whose fetch panics, after addresses whose
    fetch returns: the loop ends in that panic. What it added to the events
    ends with the events of the fetch that panicked, and before them there
    is no request for any address but the earlier ones. *)
Lemma fetchEach_panic (api : http.Api) (fuel : nat) (bad : string) (rest : list string)
    (p : panic) (trace : list event) :
  (∀ w, cointracker.fetchAddressData api fuel bad w = (Panic p, logged w trace)) →
  ∀ (before : list string) (results : list (option types.AddressData)) (w : World),
    (∀ address, address ∈ before →
       returns (cointracker.fetchAddressData api fuel address)) →
    (cointracker.fetchEach api fuel (before ++ bad :: rest) results w).1 = Panic p ∧
    ∃ earlier,
      events (cointracker.fetchEach api fuel (before ++ bad :: rest) results w).2 =
        events w ++ earlier ++ trace ∧
      Forall (asksOnly before) earlier.
Proof.
  intros Hbad. induction before as [| address before IH]; intros results w Hbefore.
  - change ([] ++ bad :: rest) with (bad :: rest).
    rewrite fetchEach_cons, bind_run. unfold try. rewrite Hbad.
    split; [done |]. exists []. by split.
  - change ((address :: before) ++ bad :: rest) with (address :: (before ++ bad :: rest)).
    rewrite fetchEach_cons, bind_run.
    destruct (try_returns (cointracker.fetchAddressData api fuel address) w)
      as (fetched & w1 & Hfetch); [apply Hbefore; by left |].
    destruct (appends_try (asksOnly [address]) _
                (appends_fetchPages (asksOnly [address]) address
                   ltac:(done) ltac:(by intros ??? ?? [= -> _ _]; left) ltac:(done)
                   api fuel 0 None []) w)
      as (more1 & Hev1 & Hkind1).
    fold (cointracker.fetchAddressData api fuel address) in Hev1.
    rewrite Hfetch in Hev1 |- *. simpl in Hev1.
    rewrite bind_run.
    assert (∃ results1 more2,
              match fetched with
              | inl data => mret (results ++ [Some data])
              | inr _ => log "Bad fetch for address: %s with error %s" ;; mret results
              end w1 = (Ok results1, logged w1 more2) ∧
              Forall (asksOnly (address :: before)) more2)
      as (results1 & more2 & -> & Hkind2).
    { destruct fetched as [data | err].
      - exists (results ++ [Some data]), []. split; [| done].
        unfold logged. rewrite app_nil_r. by destruct w1.
      - exists results, [LogLine "Bad fetch for address: %s with error %s"].
        split; [done |]. by constructor. }
    rewrite bind_run. unfold sleep. rewrite emit_run, logged_logged.
    destruct (IH results1 (logged w1 (more2 ++ [Sleep 30]))) as (Hpanic & earlier & Hev & Hkind).
    { intros a Ha. apply Hbefore. by right. }
    split; [exact Hpanic |].
    exists (more1 ++ more2 ++ [Sleep 30] ++ earlier).
    split.
    + rewrite Hev. simpl. rewrite Hev1. by rewrite <- !app_assoc.
    + repeat apply Forall_app_2.
      * eapply Forall_impl; [exact Hkind1 |]. intros e. apply asksOnly_mono.
        intros a ->%list_elem_of_singleton. by left.
      * done.
      * by constructor.
      * eapply Forall_impl; [exact Hkind |]. intros e. apply asksOnly_mono.
        intros a Ha. by right.
Qed.

(** C8, as the code has it. Let [GetAllAddresses] list the addresses
    [before], then [bad], then [rest], in whatever order the store gives
    them; let the fetch of every address of [before] return, and let the
    first page for [bad] hold a record that decodes to a map but has no
    number under [tx_index] or no string under [hash]. Then the panic of
    that record is not recovered: the first loop of [SyncWallets] ends in
    it, and so does [SyncWallets], with nothing written. The last event of
    the pass is the request for [bad]: no log line, no pause and no commit
    follows it, and no address of [rest] is ever requested. *)
Theorem malformed_record_aborts_the_pass
    (api : http.Api) (fuel : nat) (w w1 : World)
    (before rest : list string) (bad : string)
    (response : types.RawAddressResponse) (recordsBefore recordsAfter : list types.RawMessage)
    (rawTx : types.RawMessage) (txMap : list (string * types.any)) :
  data.GetAllAddresses w = (Ok (before ++ bad :: rest), w1) →
  (∀ address, address ∈ before →
     returns (cointracker.fetchAddressData api (S fuel) address)) →
  api bad cointracker.limit 0%Z = http.Response 200 (http.Decoded response) →
  types.RawTxs response = recordsBefore ++ rawTx :: recordsAfter →
  Forall (λ r, is_Some (normalize r)) recordsBefore →
  json.Unmarshal rawTx = inr txMap →
  (∀ f, json.index txMap "tx_index" ≠ types.JNumber f) ∨
  (∀ s, json.index txMap "hash" ≠ types.JString s) →
  ∃ field more,
    (cointracker.SyncWallets api (S fuel) w).1 = Panic (InterfaceConversion field) ∧
    store (cointracker.SyncWallets api (S fuel) w).2 = store w ∧
    events (cointracker.SyncWallets api (S fuel) w).2 = events w ++ more ∧
    last more = Some (HttpGet bad cointracker.limit 0) ∧
    (∀ address limit offset, address ∈ rest → HttpGet address limit offset ∉ more).
Proof.
  intros Hlisted Hbefore Hreply Hrecords Hwell Hmap Hfield.
  destruct (appendTransactions_malformed recordsBefore recordsAfter rawTx txMap Hwell Hmap Hfield)
    as (field & Hpanic).
  assert (∀ w0, cointracker.fetchAddressData api (S fuel) bad w0 =
                (Panic (InterfaceConversion field),
                 logged w0 [HttpGet bad cointracker.limit 0])) as Hbad.
  { intros w0. unfold cointracker.fetchAddressData. simpl.
    rewrite bind_run, emit_run, Hreply.
    rewrite decide_False by (intros Hne; by apply Hne).
    by rewrite bind_run, Hrecords, Hpanic. }
  destruct (GetAllAddresses_Ok _ _ _ Hlisted) as (Hperm & _ & _ & Hevents).
  assert (NoDup (before ++ bad :: rest)) as Hnodup
    by (rewrite Hperm; apply NoDup_fst_map_to_list).
  apply NoDup_app in Hnodup as (_ & Hapart & Hnodup).
  apply NoDup_cons in Hnodup as [Hfresh _].
  destruct (fetchEach_panic api (S fuel) bad rest _ _ Hbad before
              (replicate (length (before ++ bad :: rest)) None) w1 Hbefore)
    as (Hloop & earlier & Hev & Hkind).
  assert (cointracker.collectResults api (S fuel) w =
          cointracker.fetchEach api (S fuel) (before ++ bad :: rest)
            (replicate (length (before ++ bad :: rest)) None) w1) as Hcollect.
  { unfold cointracker.collectResults. rewrite bind_run. unfold try at 1.
    rewrite Hlisted. by rewrite bind_run. }
  pose proof (keepsTables_collectResults api (S fuel) w) as [Hstore _].
  assert (cointracker.SyncWallets api (S fuel) w =
          (Panic (InterfaceConversion field),
           (cointracker.collectResults api (S fuel) w).2)) as Hsync.
  { unfold cointracker.SyncWallets. rewrite bind_run, Hcollect.
    destruct (cointracker.fetchEach _ _ _ _ w1) as [r w2]. simpl in Hloop. by subst r. }
  exists field, (earlier ++ [HttpGet bad cointracker.limit 0]).
  rewrite Hsync. simpl. split; [done |]. split; [done |]. split; [| split].
  - by rewrite Hcollect, Hev, Hevents.
  - apply last_snoc.
  - intros address limit offset Hrest [Hin | Hin]%elem_of_app.
    + rewrite Forall_forall in Hkind. specialize (Hkind _ Hin address limit offset eq_refl).
      apply (Hapart address Hkind). by right.
    + apply list_elem_of_singleton in Hin. injection Hin as -> _ _. by apply Hfresh.
Qed.

(** On the sample data the store lists the addresses in the order of their
    bytes: [other], then [genesis]. With the malformed record served for
    [other], the pass makes the request for [other] and ends in the panic:
    [genesis] is never requested. With the malformed record served for
    [genesis], [other] is fetched first, and the pass ends in the panic at
    the request for [genesis]. *)
Lemma malformed_record_aborts_the_pass_witness :
  let w := sample.quiet sample.twoAddresses in
  let first := cointracker.SyncWallets sample.malformedForOther 2 w in
  let second := cointracker.SyncWallets sample.malformedForGenesis 2 w in
  (data.GetAllAddresses w).1 = Ok [sample.other; sample.genesis] ∧
  (first.1 = Panic (InterfaceConversion "tx_index") ∧
   store first.2 = sample.twoAddresses ∧
   events first.2 = [HttpGet sample.other 50 0] ∧
   (∀ limit offset, HttpGet sample.genesis limit offset ∉ events first.2)) ∧
  (second.1 = Panic (InterfaceConversion "tx_index") ∧
   store second.2 = sample.twoAddresses ∧
   events second.2 = [HttpGet sample.other 50 0; Sleep 30; HttpGet sample.genesis 50 0]).
Proof.
  intros w first second. split; [vm_compute; reflexivity |]. split.
  - destruct (malformed_record_aborts_the_pass sample.malformedForOther 1 w w
                [] [sample.genesis] sample.other
                (types.mkRawAddressResponse "" sample.other 2 0 0 0 77
                   [sample.recordWithoutOrdinal; sample.record 1])
                [] [sample.record 1] sample.recordWithoutOrdinal
                [("hash", types.JString "h0")])
      as (field & more & Hpanic & Hstore & Hevents & Hlast & Hrest).
    + vm_compute. reflexivity.
    + intros address Hin. by apply elem_of_nil in Hin.
    + reflexivity.
    + reflexivity.
    + constructor.
    + reflexivity.
    + left. intros f. vm_compute. discriminate.
    + split; [vm_compute; reflexivity |]. split; [exact Hstore |].
      split; [vm_compute; reflexivity |].
      intros limit offset. fold first in Hevents. rewrite Hevents. simpl.
      apply Hrest. by left.
  - destruct (malformed_record_aborts_the_pass sample.malformedForGenesis 1 w w
                [sample.other] [] sample.genesis
                (types.mkRawAddressResponse "" sample.genesis 2 0 0 0 77
                   [sample.recordWithoutOrdinal; sample.record 1])
                [] [sample.record 1] sample.recordWithoutOrdinal
                [("hash", types.JString "h0")])
      as (field & more & Hpanic & Hstore & Hevents & Hlast & Hrest).
    + vm_compute. reflexivity.
    + intros address ->%list_elem_of_singleton [t staged fs ev]. vm_compute. done.
    + reflexivity.
    + reflexivity.
    + constructor.
    + reflexivity.
    + left. intros f. vm_compute. discriminate.
    + split; [vm_compute; reflexivity |]. split; [exact Hstore |].
      vm_compute. reflexivity.
Defined.

(** A fetch that returns an error is logged, and the first loop goes on with
    the addresses that are left, the slice as it was. *)
Lemma fetch_error_is_isolated (api : http.Api) (fuel : nat) (address : string)
    (rest : list string) (results : list (option types.AddressData)) (w w1 : World) (e : error) :
  cointracker.fetchAddressData api fuel address w = (Err e, w1) →
  cointracker.fetchEach api fuel (address :: rest) results w =
  cointracker.fetchEach api fuel rest results
    (logged w1 [LogLine "Bad fetch for address: %s with error %s"; Sleep 30]).
Proof.
  intros Hfetch. simpl. rewrite bind_run. unfold try. rewrite Hfetch.
  rewrite bind_run, bind_run. unfold log. rewrite emit_run.
  change ((mret results : M _) (logged w1 [LogLine "Bad fetch for address: %s with error %s"]))
    with (Ok results, logged w1 [LogLine "Bad fetch for address: %s with error %s"]).
  cbv beta iota. rewrite bind_run. unfold sleep. by rewrite emit_run, logged_logged.
Qed.

(** The isolation on the sample data: the first address is out of reach, and
    the second one is fetched after it. *)
Lemma fetch_error_is_isolated_witness :
  let w := sample.quiet sample.twoAddresses in
  let collected :=
    cointracker.fetchEach sample.reachesGenesisOnly 2 [sample.other; sample.genesis] [] w in
  addressesOf collected.1 = Some [Some sample.genesis] ∧
  events collected.2 =
    [HttpGet sample.other 50 0; LogLine "Error while making request to API:";
     LogLine "Bad fetch for address: %s with error %s"; Sleep 30;
     HttpGet sample.genesis 50 0; Sleep 30].
Proof.
  intros w collected. subst collected.
  rewrite (fetch_error_is_isolated sample.reachesGenesisOnly 2 sample.other [sample.genesis] [] w
             (logged w [HttpGet sample.other 50 0; LogLine "Error while making request to API:"])
             (Wrapf "failed to fetch address data: %w" [] (External "net/http")));
    [| vm_compute; reflexivity].
  split; vm_compute; reflexivity.
Defined.

(** * Further properties of the code *)

(** ** What a sync pass writes *)

(** The slice that the first loop hands on: a nil entry for each stored
    address, then the data that was fetched. *)
Lemma collectResults_shape (api : http.Api) (fuel : nat) (w w' : World)
    (results : list (option types.AddressData)) :
  cointracker.collectResults api fuel w = (Ok results, w') →
  ∃ fetched,
    results = replicate (size (wallet (store w))) None ++ (Some <$> fetched) ∧
    (length fetched ≤ size (wallet (store w)))%nat.
Proof.
  unfold cointracker.collectResults. intros Hcollect.
  apply bind_Ok in Hcollect as (listed & w1 & Hlisted & Hcollect).
  apply bind_Ok in Hcollect as (addresses & w2 & Haddresses & Hcollect).
  destruct listed as [listed | err].
  - injection Haddresses as <- <-.
    assert (length listed = size (wallet (store w))) as Hlength.
    { unfold try in Hlisted.
      destruct (data.GetAllAddresses w) as [r0 w0] eqn:Hquery.
      destruct r0 as [l | e | p |]; try discriminate. injection Hlisted as -> ->.
      apply GetAllAddresses_Ok in Hquery as [Hperm _].
      by rewrite Hperm, length_fmap, length_map_to_list. }
    apply fetchEach_appends in Hcollect as (fetched & -> & Hlen).
    rewrite Hlength in *. by exists fetched.
  - apply bind_Ok in Haddresses as ([] & w3 & _ & Hthrow). discriminate.
Qed.

(** The commit phase on the empty slice commits the tables as they are. *)
Lemma commitResults_empty (w : World) :
  store (cointracker.commitResults [] w).2 = store w.
Proof. destruct w as [t staged [| [] [| [] rest]] ev]; reflexivity. Qed.

(** [SyncWallets] never changes the committed tables, whatever the source
    serves and whatever the driver does. With no address stored the slice
    is empty and what is committed is what was there; with an address
    stored the second loop ends at the first nil entry, before any write;
    and a pass that ends earlier has written nothing either. *)
Theorem syncWallets_never_writes (api : http.Api) (fuel : nat) (w : World) :
  store (cointracker.SyncWallets api fuel w).2 = store w.
Proof.
  unfold cointracker.SyncWallets. rewrite bind_run.
  pose proof (keepsTables_collectResults api fuel w) as [Hstore _].
  destruct (cointracker.collectResults api fuel w) as [r w1] eqn:Hcollect.
  simpl in Hstore. destruct r as [results | e | p |]; try done.
  apply collectResults_shape in Hcollect as (fetched & -> & Hlen).
  destruct (size (wallet (store w))) as [| n].
  - destruct fetched as [| d fetched]; [| simpl in Hlen; lia].
    simpl. by rewrite commitResults_empty.
  - change (replicate (S n) None ++ (Some <$> fetched))
      with (None :: replicate n None ++ (Some <$> fetched)).
    destruct (commitResults_nil_entry (replicate n None ++ (Some <$> fetched)) w1) as [_ Hs].
    by rewrite Hs.
Qed.

(** With no address stored and a driver that does not fail, [SyncWallets]
    makes no request and takes no pause: it begins and commits an empty
    transaction, reports success, and leaves the tables as they were. *)
Theorem syncWallets_on_empty_wallet (api : http.Api) (fuel : nat) (w : World) :
  wallet (store w) = ∅ →
  faults w = [] →
  cointracker.SyncWallets api fuel w =
  (Ok (), mkWorld (store w) None []
            (events w ++ [LogLine "Successfully updated all values for wallet"])).
Proof.
  destruct w as [[addresses txs] staged fs ev]. simpl. intros -> ->. reflexivity.
Qed.

Lemma syncWallets_on_empty_wallet_witness :
  cointracker.SyncWallets (sample.explorer 120 120 77) 3 (sample.quiet (mkTables ∅ ∅)) =
  (Ok (), mkWorld (mkTables ∅ ∅) None []
            [LogLine "Successfully updated all values for wallet"]).
Proof.
  apply (syncWallets_on_empty_wallet (sample.explorer 120 120 77) 3
           (sample.quiet (mkTables ∅ ∅))); reflexivity.
Defined.

(** ** Pagination comes to an end *)

Lemma finishes_bind {A B : Type} (c : M A) (f : A → M B) :
  finishes c → (∀ a, finishes (f a)) → finishes (c ≫= f).
Proof.
  intros Hc Hf w. rewrite bind_run. specialize (Hc w).
  destruct (c w) as [[a | e | p |] w1]; simpl in *; try done. apply Hf.
Qed.

Lemma finishes_ret {A : Type} (a : A) : finishes (mret a : M A).
Proof. by intros w. Qed.

Lemma finishes_fail {A : Type} (e : error) : finishes (fail e : M A).
Proof. by intros w. Qed.

Lemma finishes_throw {A : Type} (p : panic) : finishes (throw p : M A).
Proof. by intros w. Qed.

Lemma finishes_emit (e : event) : finishes (emit e).
Proof. by intros w. Qed.

Lemma finishes_appendTransactions (rawTxs : list types.RawMessage)
    (allTxs : list types.Transaction) :
  finishes (cointracker.appendTransactions rawTxs allTxs).
Proof.
  revert allTxs. induction rawTxs as [| rawTx rest IH]; intros allTxs; simpl.
  - apply finishes_ret.
  - destruct (json.Unmarshal rawTx) as [err | txMap].
    + apply finishes_bind; [apply finishes_emit | intros _; apply finishes_fail].
    + apply finishes_bind; [| intros tx_index; apply finishes_bind; [| intros hash; apply IH]].
      * destruct (json.index txMap "tx_index"); (apply finishes_ret || apply finishes_throw).
      * destruct (json.index txMap "hash"); (apply finishes_ret || apply finishes_throw).
Qed.

Lemma pagesLeft_next (total offset : Z) :
  (offset + cointracker.limit < total)%Z →
  pagesLeft total offset = (pagesLeft total (offset + cointracker.limit) + 1)%Z.
Proof.
  unfold pagesLeft, cointracker.limit. intros Hmore.
  replace (total - offset + (50 - 1))%Z with (total - (offset + 50) + (50 - 1) + 1 * 50)%Z by lia.
  rewrite Z.div_add by lia.
  assert (0 < (total - (offset + 50) + (50 - 1)) `div` 50)%Z
    by (apply Z.div_str_pos; lia).
  lia.
Qed.

Section Bounded.

Variable api : http.Api.
Variable address : string.
Variable total : Z.

Hypothesis reported :
  ∀ offset response,
    api address cointracker.limit offset = http.Response 200 (http.Decoded response) →
    (types.NTx response ≤ total)%Z.

Hypothesis total_small : (total < 2 ^ 62)%Z.

(** The loop from an offset on needs no more turns than the count asks
    pages for. *)
Lemma fetchPages_finishes (fuel : nat) :
  ∀ (offset : Z) (data : option types.AddressData) (allTxs : list types.Transaction),
    (0 ≤ offset < 2 ^ 62)%Z →
    (pagesLeft total offset ≤ Z.of_nat fuel)%Z →
    finishes (cointracker.fetchPages api fuel address offset data allTxs).
Proof.
  induction fuel as [| fuel IH]; intros offset data allTxs Hoffset Hfuel.
  - unfold pagesLeft in Hfuel. lia.
  - simpl. apply finishes_bind; [apply finishes_emit | intros _].
    destruct (api address cointracker.limit offset) as [| StatusCode body] eqn:Hreply.
    { apply finishes_bind; [apply finishes_emit | intros _; apply finishes_fail]. }
    destruct (decide (StatusCode ≠ http.StatusOK)) as [| Hok].
    { apply finishes_bind; [apply finishes_emit | intros _; apply finishes_fail]. }
    apply dec_stable in Hok. subst StatusCode.
    destruct body as [| | response].
    { apply finishes_bind; [apply finishes_emit | intros _; apply finishes_fail]. }
    { apply finishes_bind; [apply finishes_emit | intros _; apply finishes_fail]. }
    apply finishes_bind; [apply finishes_appendTransactions | intros txs].
    destruct (bool_decide _ || bool_decide _) eqn:Htest; [apply finishes_ret |].
    apply orb_false_iff in Htest as [_ Hmore].
    apply bool_decide_eq_false in Hmore.
    specialize (reported offset response Hreply).
    rewrite wrap64_small in * by (unfold cointracker.limit; lia).
    apply finishes_bind; [apply finishes_emit | intros _].
    apply IH.
    + unfold cointracker.limit in *. lia.
    + rewrite pagesLeft_next in Hfuel by lia. lia.
Qed.

End Bounded.

(** Pagination is bounded by the count the source reports. If every page
    that the source serves for an address reports a count of at most [total]
    records, [fetchAddressData] comes to an end (with data, an error or a
    panic) within [pagesLeft total 0] turns of its loop, that is within one
    request for each 50 records of [total], and at least one: fuel for that
    many pages is never used up, whatever the pages hold. *)
Theorem pagination_is_bounded
    (api : http.Api) (address : string) (total : Z) (fuel : nat) (w : World) :
  (∀ offset response,
     api address cointracker.limit offset = http.Response 200 (http.Decoded response) →
     (types.NTx response ≤ total)%Z) →
  (total < 2 ^ 62)%Z →
  (pagesLeft total 0 ≤ Z.of_nat fuel)%Z →
  (cointracker.fetchAddressData api fuel address w).1 ≠ Unfinished.
Proof.
  intros Hreported Hsmall Hfuel. unfold cointracker.fetchAddressData.
  apply (fetchPages_finishes api address total Hreported Hsmall); [lia | done].
Qed.

(** The bound on the source of 120 records: three pages. *)
Lemma pagination_is_bounded_witness :
  pagesLeft 120 0 = 3%Z ∧
  (cointracker.fetchAddressData (sample.explorer 120 120 77) 3 sample.genesis
     (sample.quiet (mkTables ∅ ∅))).1 ≠ Unfinished.
Proof.
  split; [reflexivity |].
  apply (pagination_is_bounded (sample.explorer 120 120 77) sample.genesis 120 3).
  - intros offset response [= <-]. simpl. lia.
  - lia.
  - vm_compute. discriminate.
Defined.

(** ** A page that fails *)

Section Prefix.

Variable api : http.Api.
Variable address : string.

(** The loop over pages after which it goes on: it arrives at the offset
    behind them with their transactions, having spent a turn on each. *)
Lemma fetchPages_prefix (replies : list types.RawAddressResponse) :
  ∀ (j : nat) (data : option types.AddressData) (allTxs : list types.Transaction)
    (fuel : nat) (w : World),
    (∀ i reply, replies !! i = Some reply →
       api address cointracker.limit (cointracker.limit * Z.of_nat (j + i))%Z =
         http.Response 200 (http.Decoded reply) ∧
       wellFormed reply ∧ goesOn reply (j + i)) →
    (cointracker.limit * Z.of_nat (j + length replies) < 2 ^ 63)%Z →
    cointracker.fetchPages api (length replies + fuel) address
      (cointracker.limit * Z.of_nat j)%Z data allTxs w =
    cointracker.fetchPages api fuel address
      (cointracker.limit * Z.of_nat (j + length replies))%Z
      (match replies with [] => data | first :: _ => Some (headerOf data first) end)
      (allTxs ++ omap normalize (concat (types.RawTxs <$> replies)))
      (logged w (pagesThenPause address (pageOffsets j (length replies)))).
Proof.
  induction replies as [| reply replies IH]; intros j data allTxs fuel w Hpages Hbound.
  - simpl length. rewrite Nat.add_0_r. simpl. rewrite app_nil_r.
    unfold logged. rewrite app_nil_r. by destruct w.
  - destruct (Hpages 0%nat reply eq_refl) as (Hreply & Hwell & Hgoes).
    simpl length in *. rewrite Nat.add_0_r in *.
    assert (cointracker.limit * (Z.of_nat j + 1) < 2 ^ 63)%Z as Hnext
      by (unfold cointracker.limit in *; lia).
    change (S (length replies) + fuel)%nat with (S (length replies + fuel)).
    rewrite (fetchPages_turn api address _ _ data allTxs reply w Hreply Hwell).
    rewrite next_offset, goesOn_test by done.
    rewrite (IH (S j)).
    + replace (S j + length replies)%nat with (j + S (length replies))%nat by lia.
      rewrite logged_logged.
      change (concat (types.RawTxs <$> reply :: replies))
        with (types.RawTxs reply ++ concat (types.RawTxs <$> replies)).
      rewrite omap_app, app_assoc.
      by destruct replies.
    + intros i r Hr. replace (S j + i)%nat with (j + S i)%nat by lia. by apply Hpages.
    + by replace (S j + length replies)%nat with (j + S (length replies))%nat by lia.
Qed.

(** A turn of the loop on a reply that fails. *)
Lemma fetchPages_failure (fuel : nat) (offset : Z) (data : option types.AddressData)
    (allTxs : list types.Transaction) (line : string) (e : error) (w : World) :
  failureOf (api address cointracker.limit offset) = Some (line, e) →
  cointracker.fetchPages api (S fuel) address offset data allTxs w =
  (Err e, logged w [HttpGet address cointracker.limit offset; LogLine line]).
Proof.
  intros Hfailure. simpl. rewrite bind_run, emit_run.
  destruct (api address cointracker.limit offset) as [| StatusCode body]; simpl in Hfailure.
  - injection Hfailure as <- <-. by rewrite bind_run; unfold log; rewrite emit_run, logged_logged.
  - destruct (decide (StatusCode ≠ http.StatusOK)).
    + injection Hfailure as <- <-.
      by rewrite bind_run; unfold log; rewrite emit_run, logged_logged.
    + destruct body as [| | response]; try discriminate; injection Hfailure as <- <-;
        by rewrite bind_run; unfold log; rewrite emit_run, logged_logged.
Qed.

End Prefix.

(** A page that fails, fails the fetch of the address, and what earlier
    pages gave is dropped. Let the source serve well-formed pages after
    which the loop goes on, and then fail the next request: no reply, a
    status other than 200, an unreadable body or one that is not the JSON of
    a response. Then [fetchAddressData] returns the error of that failure
    and no data, after the requests for these pages, 15 seconds apart, and
    one log line. *)
Theorem failed_page_fails_the_fetch
    (api : http.Api) (address : string) (replies : list types.RawAddressResponse)
    (line : string) (e : error) (fuel : nat) (w : World) :
  (∀ i reply, replies !! i = Some reply →
     api address cointracker.limit (cointracker.limit * Z.of_nat i)%Z =
       http.Response 200 (http.Decoded reply) ∧
     wellFormed reply ∧ goesOn reply i) →
  failureOf (api address cointracker.limit
               (cointracker.limit * Z.of_nat (length replies))%Z) = Some (line, e) →
  (cointracker.limit * Z.of_nat (length replies) < 2 ^ 63)%Z →
  (length replies < fuel)%nat →
  cointracker.fetchAddressData api fuel address w =
  (Err e,
   logged w (pagesThenPause address (pageOffsets 0 (length replies)) ++
             [HttpGet address cointracker.limit
                (cointracker.limit * Z.of_nat (length replies))%Z;
              LogLine line])).
Proof.
  intros Hpages Hfailure Hbound Hfuel. unfold cointracker.fetchAddressData.
  replace fuel with (length replies + S (fuel - length replies - 1))%nat by lia.
  change 0%Z with (cointracker.limit * Z.of_nat 0)%Z.
  rewrite (fetchPages_prefix api address replies 0 None []); [| done | done].
  rewrite (fetchPages_failure api address _ _ _ _ line e) by done.
  by rewrite logged_logged.
Qed.

(** The source serves a full first page of a history of 120 records and
    answers the second request with status 503. *)
Lemma failed_page_fails_the_fetch_witness :
  let api : http.Api := λ address limit offset,
    if decide (offset = 0%Z) then sample.explorer 120 120 77 address limit offset
    else http.Response 503 http.Unreadable in
  cointracker.fetchAddressData api 2 sample.genesis (sample.quiet (mkTables ∅ ∅)) =
  (Err (Errorf "API request failed with status: %d" [ArgD 503]),
   mkWorld (mkTables ∅ ∅) None []
     [HttpGet sample.genesis 50 0; Sleep 15; HttpGet sample.genesis 50 50;
      LogLine "Bad response code from API call:"]).
Proof.
  intros api.
  apply (failed_page_fails_the_fetch api sample.genesis
           [sample.response 120 120 77 sample.genesis 50 0]
           "Bad response code from API call:"
           (Errorf "API request failed with status: %d" [ArgD 503]) 2
           (sample.quiet (mkTables ∅ ∅))).
  - intros [| i] r; simpl; intros [= <-].
    split; [reflexivity | split; [apply wellFormed_sample |]].
    split; vm_compute; congruence.
  - reflexivity.
  - vm_compute. reflexivity.
  - simpl. lia.
Defined.

(** ** A record that is no object *)

Lemma appendTransactions_no_object (before rest : list types.RawMessage)
    (rawTx : types.RawMessage) (err : error) :
  Forall (λ r, is_Some (normalize r)) before →
  json.Unmarshal rawTx = inl err →
  ∀ allTxs w,
    cointracker.appendTransactions (before ++ rawTx :: rest) allTxs w =
    (Err (Wrapf "error while parsing transactions: %w" [] err),
     logged w [LogLine "Error parsing JSON transactions:"]).
Proof.
  intros Hbefore Hdecode. induction Hbefore as [| good before [t Ht] _ IH]; intros allTxs w.
  - simpl. rewrite Hdecode, bind_run. unfold log. by rewrite emit_run.
  - simpl. apply normalize_Some in Ht as (goodMap & tx_index & hash & -> & Hindex & Hhash & ->).
    rewrite bind_run, Hindex. simpl. rewrite bind_run, Hhash. simpl. apply IH.
Qed.

(** A turn of the loop on a page that holds a record that is no object,
    after records that are well formed. *)
Lemma fetchPages_no_object (api : http.Api) (address : string) (fuel : nat) (offset : Z)
    (data : option types.AddressData) (allTxs : list types.Transaction)
    (response : types.RawAddressResponse) (before rest : list types.RawMessage)
    (rawTx : types.RawMessage) (err : error) (w : World) :
  api address cointracker.limit offset = http.Response 200 (http.Decoded response) →
  types.RawTxs response = before ++ rawTx :: rest →
  Forall (λ r, is_Some (normalize r)) before →
  json.Unmarshal rawTx = inl err →
  cointracker.fetchPages api (S fuel) address offset data allTxs w =
  (Err (Wrapf "error while parsing transactions: %w" [] err),
   logged w [HttpGet address cointracker.limit offset;
             LogLine "Error parsing JSON transactions:"]).
Proof.
  intros Hreply Hrecords Hbefore Hdecode. simpl.
  rewrite bind_run, emit_run, Hreply.
  rewrite decide_False by (intros Hne; by apply Hne).
  rewrite bind_run, Hrecords, (appendTransactions_no_object _ _ _ _ Hbefore Hdecode).
  by rewrite logged_logged.
Qed.

(** A raw record that is neither an object nor [null] (a number, a string,
    a boolean, an array) is an error that [fetchAddressData] returns, unlike
    a record that lacks a field, and whichever page the record is on. Let
    the source serve well-formed pages after which the loop goes on (none,
    when the record is on the first page), and then a page on which such a
    record follows records that are well formed. The decoding of the record
    into a map fails, the failure is logged, and the fetch returns the
    error wrapped and no data: what the earlier pages and the earlier
    records of the page gave is dropped, and no further page is
    requested. *)
Theorem record_that_is_no_object_is_an_error
    (api : http.Api) (address : string) (replies : list types.RawAddressResponse)
    (response : types.RawAddressResponse) (before rest : list types.RawMessage)
    (rawTx : types.RawMessage) (err : error) (fuel : nat) (w : World) :
  (∀ i reply, replies !! i = Some reply →
     api address cointracker.limit (cointracker.limit * Z.of_nat i)%Z =
       http.Response 200 (http.Decoded reply) ∧
     wellFormed reply ∧ goesOn reply i) →
  api address cointracker.limit (cointracker.limit * Z.of_nat (length replies))%Z =
    http.Response 200 (http.Decoded response) →
  types.RawTxs response = before ++ rawTx :: rest →
  Forall (λ r, is_Some (normalize r)) before →
  json.Unmarshal rawTx = inl err →
  (cointracker.limit * Z.of_nat (length replies) < 2 ^ 63)%Z →
  (length replies < fuel)%nat →
  cointracker.fetchAddressData api fuel address w =
  (Err (Wrapf "error while parsing transactions: %w" [] err),
   logged w (pagesThenPause address (pageOffsets 0 (length replies)) ++
             [HttpGet address cointracker.limit
                (cointracker.limit * Z.of_nat (length replies))%Z;
              LogLine "Error parsing JSON transactions:"])).
Proof.
  intros Hpages Hreply Hrecords Hbefore Hdecode Hbound Hfuel.
  unfold cointracker.fetchAddressData.
  replace fuel with (length replies + S (fuel - length replies - 1))%nat by lia.
  change 0%Z with (cointracker.limit * Z.of_nat 0)%Z.
  rewrite (fetchPages_prefix api address replies 0 None []); [| done | done].
  rewrite (fetchPages_no_object api address _ _ _ _ response before rest rawTx err)
    by done.
  by rewrite logged_logged.
Qed.

(** The source serves a full first page of a history of 120 records, and a
    second page whose second record is the JSON string [h51] instead of an
    object. *)
Lemma record_that_is_no_object_is_an_error_witness :
  let stray := types.mkRawMessage (sample.quote +:+ "h51" +:+ sample.quote)
                                  (types.JString "h51") in
  let second := types.mkRawAddressResponse "" sample.genesis 120 0 0 0 77
                  [sample.record 50; stray; sample.record 52] in
  let api : http.Api := λ address limit offset,
    if decide (offset = 0%Z) then sample.explorer 120 120 77 address limit offset
    else http.Response 200 (http.Decoded second) in
  cointracker.fetchAddressData api 3 sample.genesis (sample.quiet (mkTables ∅ ∅)) =
  (Err (Wrapf "error while parsing transactions: %w" []
          (External "json: cannot unmarshal into Go value of type map[string]interface {}")),
   mkWorld (mkTables ∅ ∅) None []
     [HttpGet sample.genesis 50 0; Sleep 15; HttpGet sample.genesis 50 50;
      LogLine "Error parsing JSON transactions:"]).
Proof.
  intros stray second api.
  apply (record_that_is_no_object_is_an_error api sample.genesis
           [sample.response 120 120 77 sample.genesis 50 0]
           second [sample.record 50] [sample.record 52] stray
           (External "json: cannot unmarshal into Go value of type map[string]interface {}")
           3 (sample.quiet (mkTables ∅ ∅))).
  - intros [| i] r; simpl; intros [= <-].
    split; [reflexivity | split; [apply wellFormed_sample |]].
    split; vm_compute; congruence.
  - reflexivity.
  - reflexivity.
  - constructor; [vm_compute; eauto | constructor].
  - reflexivity.
  - vm_compute. reflexivity.
  - simpl. lia.
Defined.

(** ** Adding an address, whatever the driver does *)

Lemma Exec_cases (q : query) (w w' : World) (r : result Z) :
  sql.Exec q w = (r, w') →
  pending w' = pending w ∧ events w' = events w ∧
  (((∃ e, r = Err e) ∧ store w' = store w) ∨
   (∃ rows, r = Ok rows ∧ run q (store w) = Some (rows, store w'))).
Proof.
  unfold sql.Exec. rewrite bind_run.
  destruct (driver_cases w) as (w1 & (Hs & Hp & He) & [-> | ->]).
  - unfold step. destruct (run q (store w1)) as [[rows t] |] eqn:Hrun; intros [= <- <-]; simpl.
    + split; [done | split; [done |]]. right. exists rows. by rewrite <- Hs.
    + split; [done | split; [done |]]. left. eauto.
  - intros [= <- <-]. split; [done | split; [done |]]. left. eauto.
Qed.

(** The gateway's [AddAddress] inserts the row with balance 0, or returns an
    error and changes nothing. *)
Lemma data_AddAddress_cases (address : string) (w w' : World) (r : result unit) :
  data.AddAddress address w = (r, w') →
  (r = Ok () ∧ wallet (store w) !! address = None ∧
   store w' = mkTables (<[address := 0%Z]> (wallet (store w))) (transactions (store w))) ∨
  ((∃ e, r = Err e) ∧ store w' = store w).
Proof.
  unfold data.AddAddress. rewrite bind_run.
  destruct (wrapping _ (sql.Exec (insertAddressQuery address)) w) as [r0 w0] eqn:Hexec.
  apply wrapping_cases in Hexec as (rx & Hexec & Hrx).
  apply Exec_cases in Hexec as (_ & _ & [((e & ->) & Hs) | (rows & -> & Hrun)]).
  - destruct Hrx as [[Hne _] | (e' & _ & ->)]; [by destruct (Hne e) |].
    intros [= <- <-]. right. eauto.
  - destruct Hrx as [[_ ->] | (e' & ? & _)]; [| discriminate].
    simpl in Hrun. destruct (wallet (store w) !! address) eqn:Hlookup; [discriminate |].
    injection Hrun as <- Hstore. rewrite validateEffectedRows_one.
    intros [= <- <-]. left. by rewrite <- Hstore.
Qed.

(** The outcomes of [AddAddress], whatever the driver does. *)
Lemma AddAddress_cases (address : string) (w w' : World) (r : result bool) :
  cointracker.AddAddress address w = (r, w') →
  transactions (store w') = transactions (store w) ∧
  (∀ a, a ≠ address → wallet (store w') !! a = wallet (store w) !! a) ∧
  (∀ b, wallet (store w) !! address = Some b → wallet (store w') !! address = Some b) ∧
  (r = Ok false →
   (0 < String.length address ≤ 42)%nat ∧ wallet (store w) !! address = None ∧
   wallet (store w') !! address = Some 0%Z) ∧
  (r = Ok true → is_Some (wallet (store w) !! address) ∧ store w' = store w) ∧
  ((∃ e, r = Err e) → store w' = store w) ∧
  ((∃ b, r = Ok b) ∨ (∃ e, r = Err e)) ∧
  ((String.length address = 0 ∨ 42 < String.length address)%nat →
   r = Err (Errorf "cannot add address of invalid length" []) ∧ w' = w).
Proof.
  unfold cointracker.AddAddress. intros Hrun.
  destruct (bool_decide (String.length address = 0 ∨ 42 < String.length address)%nat)
    eqn:Hlength.
  { apply bool_decide_eq_true in Hlength. injection Hrun as <- <-.
    repeat split; try done; eauto. }
  apply bool_decide_eq_false in Hlength.
  assert (0 < String.length address ≤ 42)%nat as Hvalid by lia.
  rewrite bind_run in Hrun.
  destruct (data.CheckAddress address w) as [r0 w0] eqn:Hcheck.
  apply CheckAddress_cases in Hcheck as ((Hs & _ & _) & [(e & ->) | ->]).
  { injection Hrun as <- <-. rewrite Hs.
    repeat split; try done; eauto; lia. }
  destruct (bool_decide (is_Some (wallet (store w) !! address))) eqn:Hpresent.
  { apply bool_decide_eq_true in Hpresent. injection Hrun as <- <-. rewrite Hs.
    repeat split; try done; eauto; lia. }
  apply bool_decide_eq_false in Hpresent.
  assert (wallet (store w) !! address = None) as Habsent
    by (destruct (wallet (store w) !! address); [by destruct Hpresent | done]).
  rewrite bind_run in Hrun. unfold try in Hrun.
  destruct (data.AddAddress address w0) as [r1 w1] eqn:Hadd.
  apply data_AddAddress_cases in Hadd as [(-> & _ & Hs1) | ((e & ->) & Hs1)].
  - rewrite bind_run in Hrun. injection Hrun as <- <-. simpl. rewrite Hs1, Hs. simpl.
    repeat split; try done; eauto; try lia.
    + intros a Hne. by rewrite lookup_insert_ne.
    + intros b Hb. congruence.
    + apply lookup_insert_eq.
    + by intros [e He].
  - injection Hrun as <- <-. rewrite Hs1, Hs.
    repeat split; try done; eauto; lia.
Qed.

(** [AddAddress] under every behaviour of the driver. It never touches the
    transactions or the row of another address, and it never resets the
    balance of an address that is stored already. It returns [false] only
    having stored the address, which then has a valid length (1 to 42 bytes)
    and balance 0; it returns [true] only for an address that was stored,
    leaving the tables alone; and when it returns an error the tables are as
    they were. An address of invalid length is refused before the store is
    asked anything. *)
Theorem addAddress_outcomes (address : string) (w w' : World) (r : result bool) :
  cointracker.AddAddress address w = (r, w') →
  transactions (store w') = transactions (store w) ∧
  (∀ a, a ≠ address → wallet (store w') !! a = wallet (store w) !! a) ∧
  (∀ b, wallet (store w) !! address = Some b → wallet (store w') !! address = Some b) ∧
  (r = Ok false →
   (0 < String.length address ≤ 42)%nat ∧ wallet (store w) !! address = None ∧
   wallet (store w') !! address = Some 0%Z) ∧
  (r = Ok true → is_Some (wallet (store w) !! address) ∧ store w' = store w) ∧
  ((∃ e, r = Err e) → store w' = store w) ∧
  ((∃ b, r = Ok b) ∨ (∃ e, r = Err e)) ∧
  ((String.length address = 0 ∨ 42 < String.length address)%nat →
   r = Err (Errorf "cannot add address of invalid length" []) ∧ w' = w).
Proof. apply AddAddress_cases. Qed.

(** On the sample data: an address that is too long, then a new one. *)
Lemma addAddress_outcomes_witness :
  let w := sample.quiet sample.twoAddresses in
  let long := "123456789012345678901234567890123456789012345" in
  cointracker.AddAddress long w =
    (Err (Errorf "cannot add address of invalid length" []), w) ∧
  (cointracker.AddAddress "bc1q" w).1 = Ok false ∧
  wallet (store (cointracker.AddAddress "bc1q" w).2) !! sample.genesis = Some 0%Z.
Proof.
  intros w long.
  assert (cointracker.AddAddress long w =
          ((cointracker.AddAddress long w).1, (cointracker.AddAddress long w).2)) as Hlong
    by (vm_compute; reflexivity).
  assert (cointracker.AddAddress "bc1q" w =
          ((cointracker.AddAddress "bc1q" w).1, (cointracker.AddAddress "bc1q" w).2)) as Hnew
    by (vm_compute; reflexivity).
  destruct (addAddress_outcomes _ _ _ _ Hlong) as (_ & _ & _ & _ & _ & _ & _ & Hrefused).
  destruct (addAddress_outcomes _ _ _ _ Hnew) as (_ & Hothers & _).
  destruct Hrefused as [Hr Hw]; [right; vm_compute; lia |].
  split; [rewrite Hlong; by rewrite Hr, Hw |].
  split; [vm_compute; reflexivity |].
  rewrite Hothers; [vm_compute; reflexivity | vm_compute; discriminate].
Defined.

(** ** Reading balances and addresses *)

Lemma GetBalance_cases (address : string) (w w' : World) (r : result Z) :
  data.GetBalance address w = (r, w') →
  sameTables w w' ∧
  ((∃ e, r = Err e) ∨ (∃ b, r = Ok b ∧ wallet (store w) !! address = Some b)).
Proof.
  unfold data.GetBalance. intros Hrun.
  apply wrapping_cases in Hrun as (r0 & Hrun & Hr).
  unfold sql.QueryBalance in Hrun. rewrite bind_run in Hrun.
  destruct (driver_cases w) as (w1 & (Hs & Hp & He) & [Hd | Hd]); rewrite Hd in Hrun.
  - unfold step in Hrun. rewrite Hs in Hrun.
    destruct (wallet (store w) !! address) as [b |]; injection Hrun as <- <-;
      (split; [done |]).
    + right. exists b. by destruct Hr as [[_ ->] | (e & ? & _)].
    + left. destruct Hr as [[Hne _] | (e & _ & ->)]; [by edestruct Hne | eauto].
  - injection Hrun as <- <-. split; [done |]. left.
    destruct Hr as [[Hne _] | (e & _ & ->)]; [by edestruct Hne | eauto].
Qed.

Lemma GetBalance_no_fault (address : string) (w : World) :
  faults w = [] →
  data.GetBalance address w =
  (match wallet (store w) !! address with
   | Some b => Ok b
   | None => Err (Wrapf "failed to get address balance: %w" []
                    (External "sql: no rows in result set"))
   end, w).
Proof.
  intros Hf. unfold data.GetBalance, wrapping, sql.QueryBalance.
  rewrite bind_run, (driver_no_fault w Hf). unfold step.
  by destruct (wallet (store w) !! address).
Qed.

(** [GetBalance] reads the stored balance and nothing else. Whatever the
    driver does, a balance it returns is the one stored for the address, and
    the tables are left alone; for an address that is not stored it returns
    an error, never a balance of 0; and with a driver that does not fail it
    returns the balance of every stored address. *)
Theorem getBalance_reads_the_wallet (address : string) (w w' : World) (r : result Z) :
  cointracker.GetBalance address w = (r, w') →
  store w' = store w ∧
  (∀ b, r = Ok b → wallet (store w) !! address = Some b) ∧
  (wallet (store w) !! address = None → ∃ e, r = Err e) ∧
  (faults w = [] → ∀ b, wallet (store w) !! address = Some b → r = Ok b).
Proof.
  unfold cointracker.GetBalance. intros Hrun.
  pose proof (GetBalance_no_fault address w) as Hquiet. rewrite Hrun in Hquiet.
  apply GetBalance_cases in Hrun as ((Hs & _ & _) & Hr).
  split; [done |]. split; [| split].
  - intros b ->. destruct Hr as [(e & ?) | (b' & [= <-] & ?)]; done.
  - intros Habsent. destruct Hr as [(e & ->) | (b & _ & ?)]; [eauto | congruence].
  - intros Hf b Hb. specialize (Hquiet Hf). rewrite Hb in Hquiet. congruence.
Qed.

Lemma getBalance_reads_the_wallet_witness :
  let w := sample.quiet (mkTables {[sample.genesis := 5%Z]} ∅) in
  (cointracker.GetBalance sample.genesis w).1 = Ok 5%Z ∧
  ∃ e, (cointracker.GetBalance sample.other w).1 = Err e.
Proof.
  intros w.
  assert (∀ a, cointracker.GetBalance a w =
               ((cointracker.GetBalance a w).1, (cointracker.GetBalance a w).2)) as Hrun
    by (intros a; by destruct (cointracker.GetBalance a w)).
  destruct (getBalance_reads_the_wallet _ _ _ _ (Hrun sample.genesis)) as (_ & _ & _ & Hstored).
  destruct (getBalance_reads_the_wallet _ _ _ _ (Hrun sample.other)) as (_ & _ & Habsent & _).
  split; [apply Hstored; vm_compute; reflexivity | apply Habsent; vm_compute; reflexivity].
Defined.

Lemma UpdateBalance_Ok (address : string) (balance : Z) (w w' : World) (staged : Tables) :
  pending w = Some staged →
  data.UpdateBalance openTx address balance w = (Ok (), w') →
  is_Some (wallet staged !! address) ∧
  pending w' = Some (mkTables (<[address := balance]> (wallet staged)) (transactions staged)) ∧
  store w' = store w.
Proof.
  intros Hp Hrun. unfold data.UpdateBalance in Hrun.
  apply bind_Ok in Hrun as (rows & w1 & Hexec & Hcheck).
  apply wrapped_TxExec_cases in Hexec
    as (Hs & _ & [(e & ? & _) | (st & rows' & t' & Hst & Hq & [= <-] & Hpe)]); [discriminate |].
  rewrite Hp in Hst. injection Hst as <-.
  unfold data.validateEffectedRows in Hcheck.
  destruct (decide (rows ≠ 1%Z)) as [| Hone]; [discriminate |].
  injection Hcheck as <-. rewrite run_updateBalance in Hq.
  destruct (wallet staged !! address) as [old |]; injection Hq as <- <-.
  - split; [eauto | done].
  - by destruct Hone.
Qed.

(** A balance written inside a transaction and committed is the balance
    read back. After [StartTransaction], [UpdateBalance] and
    [CommitTransaction] have gone through, the address (which was stored)
    has the new balance, the other balances and the transactions are as
    before, and [GetBalance] returns the new balance. *)
Theorem committed_balance_is_read_back
    (address : string) (balance : Z) (tx : Tx) (w w1 w2 w3 : World) :
  data.StartTransaction w = (Ok tx, w1) →
  data.UpdateBalance tx address balance w1 = (Ok (), w2) →
  data.CommitTransaction tx w2 = (Ok (), w3) →
  is_Some (wallet (store w) !! address) ∧
  wallet (store w3) = <[address := balance]> (wallet (store w)) ∧
  transactions (store w3) = transactions (store w) ∧
  (faults w3 = [] → cointracker.GetBalance address w3 = (Ok balance, w3)).
Proof.
  intros Hbegin Hupdate Hcommit.
  apply wrapping_Ok, Begin_Ok in Hbegin as (-> & Hs1 & Hp1 & _).
  destruct (UpdateBalance_Ok _ _ _ _ _ Hp1 Hupdate) as (Hstored & Hp2 & Hs2).
  apply Commit_Ok in Hcommit as (Hp3 & _ & _).
  rewrite Hp2 in Hp3. injection Hp3 as Hs3.
  split; [done |]. rewrite <- Hs3. simpl. split; [done |]. split; [done |].
  intros Hf. unfold cointracker.GetBalance. rewrite (GetBalance_no_fault _ _ Hf).
  by rewrite <- Hs3; simpl; rewrite lookup_insert_eq.
Qed.

Lemma committed_balance_is_read_back_witness :
  let w := sample.quiet sample.twoAddresses in
  let w1 := (data.StartTransaction w).2 in
  let w2 := (data.UpdateBalance openTx sample.other 9 w1).2 in
  let w3 := (data.CommitTransaction openTx w2).2 in
  cointracker.GetBalance sample.other w3 = (Ok 9%Z, w3) ∧
  wallet (store w3) !! sample.genesis = Some 0%Z.
Proof.
  intros w w1 w2 w3.
  destruct (committed_balance_is_read_back sample.other 9 openTx w w1 w2 w3)
    as (_ & Hwallet & _ & Hread); try (vm_compute; reflexivity).
  split; [apply Hread; vm_compute; reflexivity |].
  rewrite Hwallet. vm_compute. reflexivity.
Defined.



(** ** Reading transactions *)

#[global] Instance comesBefore_total : Total comesBefore.
Proof. intros x y. unfold comesBefore. destruct (String.leb_total (textOf y.1) (textOf x.1)); eauto. Qed.

(** What [GetTransactions] returns: the payloads of the entries of the
    address, which are its rows, each once, in the order of the query. *)
Lemma GetTransactions_entries (address : string) (w w' : World) (payloads : list string) :
  data.GetTransactions address w = (Ok payloads, w') →
  store w' = store w ∧
  ∃ entries : list (Z * TxRow),
    payloads = (λ entry, row_data entry.2) <$> entries ∧
    NoDup entries.*1 ∧
    (∀ i row, (i, row) ∈ entries ↔
              transactions (store w) !! i = Some row ∧ row_address row = address) ∧
    Sorted comesBefore entries.
Proof.
  unfold data.GetTransactions. intros Hrun.
  apply wrapping_Ok in Hrun. unfold sql.QueryTransactions in Hrun.
  apply bind_Ok in Hrun as ([] & w1 & Hdriver & Hrun).
  pose proof (keepsTables_driver w) as [Hs _]. rewrite Hdriver in Hs. simpl in Hs.
  unfold step in Hrun. injection Hrun as <- <-. rewrite Hs.
  split; [done |].
  set (rows := map_to_list (filter (belongsTo address) (transactions (store w)))).
  exists (merge_sort comesBefore rows).
  pose proof (merge_sort_Permutation comesBefore rows) as Hperm.
  split; [done |]. split; [| split].
  - rewrite Hperm. apply NoDup_fst_map_to_list.
  - intros i row. rewrite Hperm. unfold rows.
    rewrite elem_of_map_to_list, map_lookup_filter_Some. done.
  - apply Sorted_merge_sort. apply _.
Qed.



(** ** Removing an address, and the others *)

Lemma RemoveAddress_store_cases (address : string) (w w' : World) (r : result bool) :
  cointracker.RemoveAddress address w = (r, w') →
  store w' = store w ∨ (r = Ok true ∧ store w' = removed address (store w)).
Proof.
  unfold cointracker.RemoveAddress. rewrite bind_run.
  destruct (data.CheckAddress address w) as [r0 w0] eqn:Hcheck.
  apply CheckAddress_cases in Hcheck as ((Hs & _ & _) & [(e & ->) | ->]).
  - intros [= <- <-]. by left.
  - destruct (bool_decide (is_Some (wallet (store w) !! address))).
    + rewrite bind_run.
      destruct (data.RemoveAddress address w0) as [r1 w1] eqn:Hremove.
      apply data_RemoveAddress_cases in Hremove
        as [(-> & _ & Hs1) | ((e & ->) & Hs1)]; intros [= <- <-].
      * right. split; [done | congruence].
      * left. congruence.
    + intros [= <- <-]. by left.
Qed.

Lemma removed_others (address : string) (t : Tables) :
  (∀ a, a ≠ address → wallet (removed address t) !! a = wallet t !! a) ∧
  (∀ i row, row_address row ≠ address →
            transactions (removed address t) !! i = Some row ↔ transactions t !! i = Some row).
Proof.
  split.
  - intros a Hne. simpl. by rewrite lookup_delete_ne.
  - intros i row Hne. simpl. rewrite map_lookup_filter_Some. unfold belongsTo. simpl.
    split; [by intros [? _] | by intros ?].
Qed.

Lemma GetTransactions_none (address : string) (w : World) :
  faults w = [] →
  (∀ i row, transactions (store w) !! i = Some row → row_address row ≠ address) →
  data.GetTransactions address w = (Ok [], w).
Proof.
  intros Hf Hnone. unfold data.GetTransactions, wrapping, sql.QueryTransactions.
  rewrite bind_run, (driver_no_fault w Hf). unfold step.
  replace (filter (belongsTo address) (transactions (store w))) with (∅ : gmap Z TxRow).
  - by rewrite map_to_list_empty.
  - symmetry. apply map_empty. intros i. apply map_lookup_filter_None.
    right. intros row Hrow Hbelongs. by apply (Hnone i row).
Qed.

(** The readers after a removal that went through. *)
Lemma removeAddress_reads (address : string) (w w' : World) (r : result bool) :
  cointracker.RemoveAddress address w = (r, w') →
  r = Ok true → faults w' = [] →
  data.CheckAddress address w' = (Ok false, w') ∧
  (∃ e, cointracker.GetBalance address w' = (Err e, w')) ∧
  data.GetTransactions address w' = (Ok [], w').
Proof.
  intros Hrun -> Hf.
  assert (store w' = removed address (store w)) as Hs.
  { pose proof Hrun as Hcases.
    apply RemoveAddress_store_cases in Hcases as [Hsame | [_ Hs]]; [| done].
    (* the tables are as before only when the address was not there *)
    unfold cointracker.RemoveAddress in Hrun. rewrite bind_run in Hrun.
    destruct (data.CheckAddress address w) as [r0 w0] eqn:Hcheck.
    apply CheckAddress_cases in Hcheck as ((Hs0 & _ & _) & [(e & ->) | ->]); [discriminate |].
    destruct (bool_decide (is_Some (wallet (store w) !! address))); [| discriminate].
    rewrite bind_run in Hrun.
    destruct (data.RemoveAddress address w0) as [r1 w1] eqn:Hremove.
    apply data_RemoveAddress_cases in Hremove
      as [(-> & _ & Hs1) | ((e & ->) & Hs1)]; [| discriminate].
    injection Hrun as <-. congruence. }
  destruct (removed_is_clean address (store w)) as [Hgone Hclean].
  rewrite <- Hs in Hgone, Hclean.
  split; [| split].
  - rewrite (CheckAddress_no_fault _ _ Hf).
    rewrite bool_decide_eq_false_2; [done |]. rewrite Hgone. by intros [? ?].
  - unfold cointracker.GetBalance. rewrite (GetBalance_no_fault _ _ Hf), Hgone. eauto.
  - by apply GetTransactions_none.
Qed.

(** [RemoveAddress] leaves the other addresses alone, whatever the driver
    does and whatever it returns: the balance of every other address is as
    before, and so is every transaction recorded for another address. Once
    it has returned [true] the address is gone for the readers: [CheckAddress]
    says it does not exist, [GetBalance] returns an error, and
    [GetTransactions] returns no payload. *)
Theorem removeAddress_leaves_the_others (address : string) (w w' : World) (r : result bool) :
  cointracker.RemoveAddress address w = (r, w') →
  (∀ a, a ≠ address → wallet (store w') !! a = wallet (store w) !! a) ∧
  (∀ i row, row_address row ≠ address →
            transactions (store w') !! i = Some row ↔ transactions (store w) !! i = Some row) ∧
  (r = Ok true → faults w' = [] →
   data.CheckAddress address w' = (Ok false, w') ∧
   (∃ e, cointracker.GetBalance address w' = (Err e, w')) ∧
   data.GetTransactions address w' = (Ok [], w')).
Proof.
  intros Hrun. pose proof (removeAddress_reads address w w' r Hrun) as Hreads.
  apply RemoveAddress_store_cases in Hrun as [Hs | [Hr Hs]]; rewrite Hs.
  - split; [done |]. split; [done |]. exact Hreads.
  - destruct (removed_others address (store w)) as [Hwallet Htxs].
    split; [done |]. split; [done |]. exact Hreads.
Qed.

Lemma removeAddress_leaves_the_others_witness :
  let t := mkTables {[sample.genesis := 5%Z; sample.other := 9%Z]}
                    {[7%Z := mkTxRow "h7" sample.genesis "seven";
                      8%Z := mkTxRow "h8" sample.other "eight"]} in
  let w' := (cointracker.RemoveAddress sample.genesis (sample.quiet t)).2 in
  wallet (store w') !! sample.other = Some 9%Z ∧
  transactions (store w') !! 8%Z = Some (mkTxRow "h8" sample.other "eight") ∧
  data.GetTransactions sample.genesis w' = (Ok [], w').
Proof.
  intros t w'.
  destruct (removeAddress_leaves_the_others sample.genesis (sample.quiet t) w' (Ok true))
    as (Hwallet & Htxs & Hreads); [vm_compute; reflexivity |].
  split; [| split].
  - rewrite Hwallet; [vm_compute; reflexivity | vm_compute; discriminate].
  - apply Htxs; [vm_compute; discriminate | vm_compute; reflexivity].
  - apply Hreads; [reflexivity | vm_compute; reflexivity].
Defined.

(** Adding an address and removing it again gives back the tables as they
    were: for an address of a valid length that is not stored, with no
    transaction recorded under it, and a driver that does not fail,
    [AddAddress] returns [false], [RemoveAddress] then returns [true], and
    the tables after the two calls are the tables before them. *)
Theorem add_then_remove_restores (address : string) (w : World) :
  (0 < String.length address ≤ 42)%nat →
  wallet (store w) !! address = None →
  (∀ i row, transactions (store w) !! i = Some row → row_address row ≠ address) →
  faults w = [] →
  ∃ w1 w2,
    cointracker.AddAddress address w = (Ok false, w1) ∧
    cointracker.RemoveAddress address w1 = (Ok true, w2) ∧
    store w2 = store w.
Proof.
  intros Hlen Habsent Hnone Hf.
  assert (bool_decide (String.length address = 0 ∨ 42 < String.length address)%nat = false)
    as Hvalid by (apply bool_decide_eq_false; lia).
  eexists. eexists. split; [| split].
  - unfold cointracker.AddAddress. rewrite Hvalid, bind_run, (CheckAddress_no_fault _ _ Hf).
    rewrite bool_decide_eq_false_2 by (rewrite Habsent; by intros [? ?]).
    rewrite bind_run. unfold try. rewrite (data_AddAddress_no_fault _ _ Hf Habsent).
    reflexivity.
  - unfold cointracker.RemoveAddress. rewrite bind_run.
    rewrite CheckAddress_no_fault by exact Hf.
    rewrite bool_decide_eq_true_2 by (simpl; rewrite lookup_insert_eq; eauto).
    rewrite bind_run, data_RemoveAddress_no_fault;
      [reflexivity | exact Hf | simpl; rewrite lookup_insert_eq; eauto].
  - simpl. unfold removed. simpl.
    rewrite delete_insert_id by done.
    rewrite map_filter_id; [by destruct (store w) |].
    intros i row Hrow. unfold belongsTo. simpl. by apply (Hnone i row).
Qed.

Lemma add_then_remove_restores_witness :
  let w := sample.quiet (mkTables {[sample.other := 9%Z]}
                                   {[8%Z := mkTxRow "h8" sample.other "eight"]}) in
  let w1 := (cointracker.AddAddress sample.genesis w).2 in
  store (cointracker.RemoveAddress sample.genesis w1).2 = store w.
Proof.
  intros w w1.
  destruct (add_then_remove_restores sample.genesis w) as (w1' & w2 & Hadd & Hremove & Hstore).
  - vm_compute. lia.
  - vm_compute. reflexivity.
  - intros i row Hrow. destruct (decide (i = 8%Z)) as [-> | Hne].
    + vm_compute in Hrow. injection Hrow as <-. vm_compute. discriminate.
    + simpl in Hrow. rewrite lookup_singleton_ne in Hrow by done. discriminate.
  - reflexivity.
  - subst w1. rewrite Hadd. simpl. rewrite Hremove. exact Hstore.
Defined.

(** ** The handlers of the runner *)

(** The outcomes of [RemoveAddress], whatever the driver does. *)
Lemma RemoveAddress_cases (address : string) (w w' : World) (r : result bool) :
  cointracker.RemoveAddress address w = (r, w') →
  (r = Ok true ∧ is_Some (wallet (store w) !! address) ∧
   store w' = removed address (store w)) ∨
  (r = Ok false ∧ wallet (store w) !! address = None ∧ store w' = store w) ∨
  ((∃ e, r = Err e) ∧ store w' = store w).
Proof.
  unfold cointracker.RemoveAddress. rewrite bind_run.
  destruct (data.CheckAddress address w) as [r0 w0] eqn:Hcheck.
  apply CheckAddress_cases in Hcheck as ((Hs & _ & _) & [(e & ->) | ->]).
  - intros [= <- <-]. right. right. eauto.
  - destruct (bool_decide (is_Some (wallet (store w) !! address))) eqn:Hpresent.
    + apply bool_decide_eq_true in Hpresent. rewrite bind_run.
      destruct (data.RemoveAddress address w0) as [r1 w1] eqn:Hremove.
      apply data_RemoveAddress_cases in Hremove
        as [(-> & _ & Hs1) | ((e & ->) & Hs1)]; intros [= <- <-].
      * left. split; [done | split; [done | congruence]].
      * right. right. split; [eauto | congruence].
    + apply bool_decide_eq_false in Hpresent. intros [= <- <-].
      right. left. split; [done | split; [| done]].
      destruct (wallet (store w) !! address); [by destruct Hpresent | done].
Qed.

(** What an answer of [updateAddress] says about the store, whatever the
    driver does. The handler always answers. For a POST, 200 (with an empty
    body) means that the address was not stored and now is, with balance 0;
    409 means that it was stored already. For a DELETE, 200 means that the
    address was stored and is removed with its transactions; 404 means that
    it was not stored. Any other method is answered with 405. And whenever
    the answer is not 200, the tables are as they were. *)
Theorem updateAddress_answers (method address : string) (w w' : World)
    (r : result runner.Written) :
  runner.updateAddress method address w = (r, w') →
  ∃ written, r = Ok written ∧
    (runner.Status written ≠ 200%Z → store w' = store w) ∧
    (method = "POST" →
     (runner.Status written = 200%Z ∧ runner.Body written = "" ∧
      wallet (store w) !! address = None ∧ wallet (store w') !! address = Some 0%Z) ∨
     (runner.Status written = 409%Z ∧ is_Some (wallet (store w) !! address)) ∨
     runner.Status written = 500%Z) ∧
    (method = "DELETE" →
     (runner.Status written = 200%Z ∧ runner.Body written = "" ∧
      is_Some (wallet (store w) !! address) ∧ store w' = removed address (store w)) ∨
     (runner.Status written = 404%Z ∧ wallet (store w) !! address = None) ∨
     runner.Status written = 500%Z) ∧
    (method ≠ "POST" → method ≠ "DELETE" → runner.Status written = 405%Z ∧ w' = w).
Proof.
  unfold runner.updateAddress. intros Hrun.
  destruct (decide (method = "POST")) as [-> | Hpost].
  - unfold runner.addAddress in Hrun. rewrite bind_run in Hrun. unfold try in Hrun.
    destruct (cointracker.AddAddress address w) as [r0 w0] eqn:Hadd.
    apply AddAddress_cases in Hadd
      as (_ & _ & _ & Hfalse & Htrue & Herr & [[[] ->] | [e ->]] & _).
    + destruct (Htrue eq_refl) as [Hpresent Hs].
      injection Hrun as <- <-. eexists. split; [reflexivity |]. simpl.
      split; [done |]. split; [| split; [done | done]]. intros _. right. left. done.
    + destruct (Hfalse eq_refl) as (_ & Habsent & Hstored).
      injection Hrun as <- <-. eexists. split; [reflexivity |]. simpl.
      split; [done |]. split; [| split; [done | done]]. intros _. left. done.
    + injection Hrun as <- <-. eexists. split; [reflexivity |]. simpl.
      split; [intros _; apply Herr; eauto |]. split; [| split; [done | done]].
      intros _. right. right. done.
  - destruct (decide (method = "DELETE")) as [-> | Hdelete].
    + unfold runner.removeAddress in Hrun. rewrite bind_run in Hrun. unfold try in Hrun.
      destruct (cointracker.RemoveAddress address w) as [r0 w0] eqn:Hremove.
      apply RemoveAddress_cases in Hremove
        as [(-> & Hpresent & Hs) | [(-> & Habsent & Hs) | ((e & ->) & Hs)]];
        injection Hrun as <- <-; (eexists; split; [reflexivity |]); simpl.
      * split; [done |]. split; [done |]. split; [| done]. intros _. left. done.
      * split; [done |]. split; [done |]. split; [| done]. intros _. right. left. done.
      * split; [done |]. split; [done |]. split; [| done]. intros _. right. right. done.
    + injection Hrun as <- <-. eexists. split; [reflexivity |]. simpl.
      split; [done |]. split; [done |]. split; [done |]. done.
Qed.

Lemma updateAddress_answers_witness :
  let w := sample.quiet sample.twoAddresses in
  (runner.updateAddress "PUT" sample.genesis w).1 =
    Ok (runner.Error "Invalid request method" 405) ∧
  store (runner.updateAddress "POST" sample.genesis w).2 = store w.
Proof.
  intros w.
  assert (∀ method, runner.updateAddress method sample.genesis w =
                    ((runner.updateAddress method sample.genesis w).1,
                     (runner.updateAddress method sample.genesis w).2)) as Hrun
    by (intros method; by destruct (runner.updateAddress method sample.genesis w)).
  split; [vm_compute; reflexivity |].
  destruct (updateAddress_answers _ _ _ _ _ (Hrun "POST")) as (written & Hr & Hkept & _).
  apply Hkept.
  assert ((runner.updateAddress "POST" sample.genesis w).1 =
          Ok (runner.Error "Cannot add duplicate addresses" 409)) as Hanswer
    by (vm_compute; reflexivity).
  rewrite Hanswer in Hr. injection Hr as <-. simpl. lia.
Defined.

(** The status of every request to [updateAddress], with a driver that does
    not fail. A POST is answered 500 for an address of invalid length (also
    for a request without the parameter, whose address is empty), 409 for an
    address that is stored, and 200 otherwise; a DELETE is answered 200 for
    an address that is stored and 404 otherwise; every other method is
    answered 405. *)
Theorem updateAddress_status (method address : string) (w : World) :
  faults w = [] →
  ∃ written w',
    runner.updateAddress method address w = (Ok written, w') ∧
    runner.Status written = statusFor method address (store w).
Proof.
  intros Hf. unfold runner.updateAddress, statusFor.
  destruct (decide (method = "POST")) as [-> | Hpost].
  - unfold runner.addAddress, cointracker.AddAddress. rewrite bind_run. unfold try.
    destruct (bool_decide (String.length address = 0 ∨ 42 < String.length address)%nat).
    { by eexists _, _. }
    rewrite bind_run, (CheckAddress_no_fault _ _ Hf).
    destruct (bool_decide (is_Some (wallet (store w) !! address))) eqn:Hstored.
    { by eexists _, _. }
    apply bool_decide_eq_false in Hstored.
    assert (wallet (store w) !! address = None) as Habsent
      by (destruct (wallet (store w) !! address); [by destruct Hstored | done]).
    rewrite bind_run, (data_AddAddress_no_fault _ _ Hf Habsent).
    by eexists _, _.
  - destruct (decide (method = "DELETE")) as [-> | Hdelete]; [| by eexists _, _].
    unfold runner.removeAddress, cointracker.RemoveAddress. rewrite bind_run. unfold try.
    rewrite bind_run, (CheckAddress_no_fault _ _ Hf).
    destruct (bool_decide (is_Some (wallet (store w) !! address))) eqn:Hstored.
    + apply bool_decide_eq_true in Hstored.
      rewrite bind_run, (data_RemoveAddress_no_fault _ _ Hf Hstored).
      by eexists _, _.
    + by eexists _, _.
Qed.

(** The statuses of a POST without address, of a POST of a new address and
    of the same POST again, and of a DELETE of an address that is not
    stored. *)
Lemma updateAddress_status_witness :
  let w := sample.quiet (mkTables ∅ ∅) in
  let status method address w :=
    match (runner.updateAddress method address w).1 with
    | Ok written => runner.Status written
    | _ => 0%Z
    end in
  status "POST" "" w = 500%Z ∧
  status "POST" sample.genesis w = 200%Z ∧
  status "POST" sample.genesis (runner.updateAddress "POST" sample.genesis w).2 = 409%Z ∧
  status "DELETE" sample.genesis w = 404%Z.
Proof.
  intros w status.
  assert (∀ method address w0, faults w0 = [] →
            status method address w0 = statusFor method address (store w0)) as Hstatus.
  { intros method address w0 Hf. subst status. simpl.
    destruct (updateAddress_status method address w0 Hf) as (written & w' & Hrun & Hwritten).
    by rewrite Hrun. }
  repeat split; rewrite Hstatus by (vm_compute; reflexivity); vm_compute; reflexivity.
Defined.

(** ** Transactions written and read back *)

Lemma run_updateTx_fresh (t : Tables) (tx_index : Z) (hash address data : string) :
  transactions t !! tx_index = None →
  run (updateTxQuery tx_index hash address data) t =
  Some (1%Z, mkTables (wallet t) (<[tx_index := mkTxRow hash address data]> (transactions t))).
Proof. intros Hnone. simpl. by rewrite Hnone. Qed.

(** Inserts under indices that are new and differ from one another record
    each transaction as it is, and keep what was recorded. *)
Lemma updateEach_inserts (txs : list types.Transaction) (address : string) :
  ∀ (w w' : World) (staged : Tables),
    pending w = Some staged →
    NoDup (types.Index <$> txs) →
    (∀ t, t ∈ txs → transactions staged !! types.Index t = None) →
    data.updateEach openTx address txs w = (Ok (), w') →
    store w' = store w ∧
    ∃ staged',
      pending w' = Some staged' ∧ wallet staged' = wallet staged ∧
      (∀ t, t ∈ txs →
         transactions staged' !! types.Index t =
         Some (mkTxRow (types.Hash t) address (types.Data t))) ∧
      (∀ i row, transactions staged !! i = Some row → transactions staged' !! i = Some row).
Proof.
  induction txs as [| t txs IH]; intros w w' staged Hp Hnodup Hfresh.
  - intros [= <-]. split; [done |]. exists staged. split; [done |]. split; [done |].
    split; [| done]. intros t Ht. by apply elem_of_nil in Ht.
  - rewrite updateEach_cons. intros Hrun.
    apply bind_Ok in Hrun as (affected & w1 & Hfirst & Hrest).
    apply wrapped_TxExec_cases in Hfirst
      as (Hs1 & _ & [(e & ? & _) | (st & rows & t1 & Hst & Hq & _ & Hp1)]); [discriminate |].
    rewrite Hp in Hst. injection Hst as <-.
    rewrite run_updateTx_fresh in Hq by (apply Hfresh; left).
    injection Hq as _ <-.
    simpl in Hnodup. apply NoDup_cons in Hnodup as [Hhead Hnodup].
    destruct (IH w1 w' _ Hp1 Hnodup) as (Hs & staged' & Hp' & Hw' & Hnew & Hold).
    + intros u Hu. simpl. rewrite lookup_insert_ne.
      * apply Hfresh. by right.
      * intros Heq. apply Hhead. rewrite Heq. by apply list_elem_of_fmap_2.
    + exact Hrest.
    + split; [congruence |]. exists staged'. split; [done |]. split; [done |]. split.
      * intros u Hu. apply elem_of_cons in Hu as [-> | Hu]; [| by apply Hnew].
        apply Hold. simpl. apply lookup_insert_eq.
      * intros i row Hrow. apply Hold. simpl. rewrite lookup_insert_ne; [done |].
        intros <-. rewrite (Hfresh t) in Hrow by left. discriminate.
Qed.



(** ** Pacing between addresses *)

Lemma coolDowns_app (a b : list event) : coolDowns (a ++ b) = (coolDowns a + coolDowns b)%nat.
Proof. unfold coolDowns. by rewrite filter_app, length_app. Qed.

Lemma coolDowns_none (evs : list event) : Forall (λ e, e ≠ coolDown) evs → coolDowns evs = 0%nat.
Proof.
  unfold coolDowns. induction 1 as [| e evs He _ IH]; [done |].
  by rewrite filter_cons_False.
Qed.


